(** * Detective Jaime (bot.py): link extraction, formatters, classifier
      and the analysis pipeline.

    The development follows src/bot.py.  Python strings are sequences of
    Unicode code points; regular expressions are values of a small
    abstract syntax run by a backtracking matcher with Python's
    leftmost, greedy, first-alternative-first discipline; the request
    handlers run in a state monad that threads the random source and
    records every outbound call. *)

From Stdlib Require Import String Ascii DecimalString DecimalZ.
From Stdlib Require Import ZArith NArith Lia Bool List.
Import ListNotations.

Set Implicit Arguments.

(** ** Code points and strings *)

Definition char := N.
Definition str := list char.

Definition ch (a : ascii) : char := N_of_ascii a.

(** Decoder for the UTF-8 bytes of a literal of this file: [pending]
    continuation bytes are still owed to the scalar accumulated in [acc]. *)
Fixpoint utf8_decode (l : list N) (pending : nat) (acc : N) : str :=
  match l with
  | [] => []
  | b :: r =>
    match pending with
    | O =>
      if (b <? 128)%N then b :: utf8_decode r 0 0%N
      else if (b <? 224)%N then utf8_decode r 1 (b - 192)%N
      else if (b <? 240)%N then utf8_decode r 2 (b - 224)%N
      else utf8_decode r 3 (b - 240)%N
    | S O => (acc * 64 + (b - 128))%N :: utf8_decode r 0 0%N
    | S p => utf8_decode r p (acc * 64 + (b - 128))%N
    end
  end.

(** A Python string literal. *)
Definition u (s : string) : str :=
  utf8_decode (map N_of_ascii (list_ascii_of_string s)) 0 0%N.

Definition nl : str := [10%N].

Definition is_ascii (c : char) : bool := (c <? 128)%N.

Definition in_range (lo hi : ascii) (c : char) : bool :=
  ((ch lo <=? c) && (c <=? ch hi))%N.

Definition ascii_digit (c : char) : bool := in_range "0" "9" c.

Definition ascii_word (c : char) : bool :=
  in_range "a" "z" c || in_range "A" "Z" c || in_range "0" "9" c
  || (c =? ch "_")%N.

(** The code points below 128 for which [str.isspace] holds: tab to
    carriage return, the four separators 28..31, and the space. *)
Definition ascii_space (c : char) : bool :=
  ((9 <=? c) && (c <=? 13) || (28 <=? c) && (c <=? 32))%N.

Definition ascii_lower (c : char) : char :=
  if in_range "A" "Z" c then (c + 32)%N else c.

(** [x == y] on strings. *)
Fixpoint str_eqb (a b : str) : bool :=
  match a, b with
  | [], [] => true
  | x :: a', y :: b' => (x =? y)%N && str_eqb a' b'
  | _, _ => false
  end.

(** [s.startswith(p)] *)
Fixpoint is_prefix (p s : str) : bool :=
  match p, s with
  | [], _ => true
  | a :: p', b :: s' => (a =? b)%N && is_prefix p' s'
  | _ :: _, [] => false
  end.

(** [needle in hay] *)
Fixpoint contains (needle hay : str) : bool :=
  is_prefix needle hay ||
  match hay with
  | [] => false
  | _ :: t => contains needle t
  end.

(** [sep.join(parts)] *)
Fixpoint join (sep : str) (parts : list str) : str :=
  match parts with
  | [] => []
  | [p] => p
  | p :: rest => p ++ sep ++ join sep rest
  end.

Fixpoint take_while (p : char -> bool) (s : str) : str :=
  match s with
  | x :: t => if p x then x :: take_while p t else []
  | [] => []
  end.

Fixpoint drop_while (p : char -> bool) (s : str) : str :=
  match s with
  | x :: t => if p x then drop_while p t else s
  | [] => []
  end.

(** [str(n)] for an integer. *)
Definition str_of_Z (z : Z) : str :=
  map N_of_ascii (list_ascii_of_string (NilZero.string_of_int (Z.to_int z))).

(** ** Exceptions

    An exception is kept as the text [str(e)] that the handlers show. *)

Inductive exn := Exception (msg : str).

Definition exn_str (e : exn) : str :=
  match e with Exception msg => msg end.

Inductive result (A : Type) :=
| Ok (a : A)
| Raise (e : exn).

Arguments Ok {A} a.
Arguments Raise {A} e.

Definition try_bind {A B : Type} (r : result A) (k : A -> result B)
  : result B :=
  match r with
  | Ok a => k a
  | Raise e => Raise e
  end.

(** [d[key]] on a mapping read from JSON: [KeyError(key)] when absent. *)
Definition getitem {A : Type} (key : string) (v : option A) : result A :=
  match v with
  | Some a => Ok a
  | None => Raise (Exception (u "'" ++ u key ++ u "'"))
  end.

(** [d.get(key, default)] *)
Definition get_default {A : Type} (v : option A) (default : A) : A :=
  match v with
  | Some a => a
  | None => default
  end.

(** ** The Unicode tables of the interpreter

    [str.lower], the classes [\d], [\w], [\s] of [re] on [str] patterns
    and [int(str)] consult the interpreter's Unicode database, which is
    not part of the repository.  They are taken as an interface whose
    laws fix their behaviour on the ASCII range. *)

Class Unicode := {
  str_lower : str -> str;
  is_decimal : char -> bool;
  is_word : char -> bool;
  is_space : char -> bool;
  (** [int(s)], with the [ValueError] it raises on a malformed literal. *)
  int_of_str : str -> result Z;
  str_lower_ascii :
    forall s, forallb is_ascii s = true -> str_lower s = map ascii_lower s;
  is_decimal_ascii :
    forall c, is_ascii c = true -> is_decimal c = ascii_digit c;
  is_word_ascii :
    forall c, is_ascii c = true -> is_word c = ascii_word c;
  is_space_ascii :
    forall c, is_ascii c = true -> is_space c = ascii_space c;
  space_not_word :
    forall c, is_space c = true -> is_word c = false;
  int_of_str_decimal :
    forall z, (0 <= z < 10 ^ 18)%Z -> int_of_str (str_of_Z z) = Ok z
}.

(** ** Regular expressions *)

Inductive regex :=
| Lit (c : char)
| Class_ (p : char -> bool)
| Empty
| Cat (r1 r2 : regex)
| Alt (r1 r2 : regex)
| Star (r : regex)
| Group (i : nat) (r : regex).

Definition Plus (r : regex) : regex := Cat r (Star r).
Definition Opt (r : regex) : regex := Alt r Empty.

Fixpoint Rep (n : nat) (r : regex) : regex :=
  match n with
  | O => Empty
  | S n' => Cat r (Rep n' r)
  end.

Fixpoint Str (s : str) : regex :=
  match s with
  | [] => Empty
  | c :: s' => Cat (Lit c) (Str s')
  end.

(** [.] without DOTALL: anything but a newline. *)
Definition Dot : regex := Class_ (fun c => negb (c =? 10)%N).

(** Capture groups: the text last matched by group [i], if any. *)
Definition caps := nat -> option str.

Definition no_caps : caps := fun _ => None.

Definition set_group (i : nat) (v : str) (g : caps) : caps :=
  fun j => if Nat.eqb j i then Some v else g j.

Section Matcher.

Variable A : Type.

Definition cont := str -> caps -> option A.

(** Greedy iteration: one more round of [body] first, the
    continuation only when that fails.  A round must consume input;
    [n] bounds the rounds by the length of the input. *)
Fixpoint star_loop (body : str -> caps -> cont -> option A) (k : cont)
         (n : nat) (s : str) (g : caps) : option A :=
  match n with
  | O => k s g
  | S n' =>
    match body s g (fun s' g' =>
                      if Nat.ltb (length s') (length s)
                      then star_loop body k n' s' g' else None) with
    | Some a => Some a
    | None => k s g
    end
  end.

(** The backtracking matcher in continuation-passing style: [k] is
    the rest of the pattern, [None] makes the matcher backtrack. *)
Fixpoint rmatch (r : regex) (s : str) (g : caps) (k : cont) : option A :=
  match r with
  | Lit c =>
    match s with
    | x :: s' => if (x =? c)%N then k s' g else None
    | [] => None
    end
  | Class_ p =>
    match s with
    | x :: s' => if p x then k s' g else None
    | [] => None
    end
  | Empty => k s g
  | Cat r1 r2 => rmatch r1 s g (fun s' g' => rmatch r2 s' g' k)
  | Alt r1 r2 =>
    match rmatch r1 s g k with
    | Some a => Some a
    | None => rmatch r2 s g k
    end
  | Star r1 => star_loop (rmatch r1) k (length s) s g
  | Group i r1 =>
    rmatch r1 s g (fun s' g' =>
      k s' (set_group i (firstn (length s - length s') s) g'))
  end.

End Matcher.

(** [re.match(r, s)]: the groups of the match anchored at the start. *)
Definition re_match (r : regex) (s : str) : option caps :=
  rmatch r s no_caps (fun _ g => Some g).

(** [re.search(r, s)]: the first start position with a match. *)
Fixpoint re_search (r : regex) (s : str) : option caps :=
  match re_match r s with
  | Some g => Some g
  | None =>
    match s with
    | [] => None
    | _ :: s' => re_search r s'
    end
  end.

(** ** extract_video_id *)

(** The class [[0-9A-Za-z_-]]. *)
Definition id_char (c : char) : bool :=
  in_range "0" "9" c || in_range "A" "Z" c || in_range "a" "z" c
  || (c =? ch "_")%N || (c =? ch "-")%N.

Definition id_group : regex := Group 1 (Rep 11 (Class_ id_char)).

Definition patterns : list regex :=
  [ Cat (Alt (Str (u "v=")) (Str (u "/"))) (Cat id_group (Star Dot));
    Cat (Str (u "embed/")) id_group;
    Cat (Str (u "youtu.be/")) id_group ].

Fixpoint first_match (ps : list regex) (url : str) : option str :=
  match ps with
  | [] => None
  | pattern :: rest =>
    match re_search pattern url with
    | Some g => g 1%nat
    | None => first_match rest url
    end
  end.

Definition extract_video_id (url : str) : option str :=
  first_match patterns url.

(** ** format_duration *)

Definition duration_re {U : Unicode} : regex :=
  Cat (Str (u "PT"))
   (Cat (Opt (Cat (Group 1 (Plus (Class_ is_decimal))) (Lit (ch "H"))))
   (Cat (Opt (Cat (Group 2 (Plus (Class_ is_decimal))) (Lit (ch "M"))))
        (Opt (Cat (Group 3 (Plus (Class_ is_decimal))) (Lit (ch "S")))))).

(** One unit of the output: nothing when the group did not take part
    in the match (or is empty), else the digits and the unit letter. *)
Definition part (v : option str) (unit : string) : list str :=
  match v with
  | Some ((_ :: _) as d) => [d ++ u unit]
  | _ => []
  end.

Definition format_duration {U : Unicode} (duration : str) : str :=
  match re_match duration_re duration with
  | None => u "Unknown"
  | Some g =>
    let hours := g 1%nat in
    let minutes := g 2%nat in
    let seconds := g 3%nat in
    let parts := part hours "h" ++ part minutes "m" ++ part seconds "s" in
    match parts with
    | [] => u "0s"
    | _ => join (u " ") parts
    end
  end.

(** ** format_views *)

(** The argument of [format_views]: the catalog sends the counter as a
    string, the default is the integer 0. *)
Inductive count_arg :=
| CInt (z : Z)
| CStr (s : str).

(** [int(count)] *)
Definition to_int {U : Unicode} (count : count_arg) : result Z :=
  match count with
  | CInt z => Ok z
  | CStr s => int_of_str s
  end.

(** The integer nearest to [p / q] for [q > 0], ties to the even one. *)
Definition round_half_even (p q : Z) : Z :=
  let d := (p / q)%Z in
  let r := (p mod q)%Z in
  if (2 * r <? q)%Z then d
  else if (q <? 2 * r)%Z then (d + 1)%Z
  else if Z.even d then d else (d + 1)%Z.

(** A finite binary64 value [mant * 2 ^ expo]. *)
Record float := { mant : Z; expo : Z }.

(** [a / b] on integers with [a >= b > 0] (the only use below): the
    binary64 value nearest to the exact quotient, ties to even, and
    [OverflowError] when that value is beyond the binary64 range. *)
Definition true_divide (a b : Z) : result float :=
  let e := Z.log2 (a / b) in
  let m :=
    if (e <=? 52)%Z then round_half_even (a * 2 ^ (52 - e)) b
    else round_half_even a (b * 2 ^ (e - 52)) in
  if ((1024 <=? e) || ((e =? 1023) && (m =? 2 ^ 53)))%Z
  then Raise (Exception (u "integer division result too large for a float"))
  else Ok {| mant := m; expo := (e - 52)%Z |}.

(** The number of tenths nearest to a non-negative binary64 value,
    ties to even: the digits that the format [.1f] prints. *)
Definition tenths (x : float) : Z :=
  if (0 <=? expo x)%Z then (10 * mant x * 2 ^ expo x)%Z
  else round_half_even (10 * mant x) (2 ^ (- expo x)).

Definition show_tenths (n : Z) : str :=
  str_of_Z (n / 10) ++ u "." ++ str_of_Z (n mod 10).

(** [f"{x:.1f}"] for a non-negative [x]. *)
Definition format_1f (x : float) : str := show_tenths (tenths x).

Definition format_views {U : Unicode} (count : count_arg) : result str :=
  try_bind (to_int count) (fun count =>
    if (1000000 <=? count)%Z then
      try_bind (true_divide count 1000000) (fun q =>
        Ok (format_1f q ++ u "M"))
    else if (1000 <=? count)%Z then
      try_bind (true_divide count 1000) (fun q =>
        Ok (format_1f q ++ u "K"))
    else Ok (str_of_Z count)).

(** ** get_detective_reaction *)

Inductive category := low_factual | moderate_mixed | high_questionable.

Definition reactions (c : category) : list str :=
  match c with
  | low_factual =>
    [ u "😽 *Jaime's Take:* This one smells fresh! Content appears credible and well-researched.";
      u "😽😽 *Jaime's Take:* My whiskers approve! Solid information with minimal bias detected.";
      u "😽😽😽 *Jaime's Take:* Investigation complete - this checks out as trustworthy content." ]
  | moderate_mixed =>
    [ u "🙀 *Jaime's Take:* Something fishy here... Mixed signals detected. Cross-reference recommended.";
      u "🙀🙀 *Jaime's Take:* Partial truth alert! Contains both facts and opinions - view critically.";
      u "🙀🙀🙀 *Jaime's Take:* My detective senses tingling. Not entirely objective - proceed with awareness." ]
  | high_questionable =>
    [ u "😾😾😾 *Jaime's Take:* RED FLAG! High bias detected. This content may be misleading or agenda-driven.";
      u "😾 *Jaime's Take:* Strong commercial/ideological bias present. Verify claims independently.";
      u "😾😾 *Jaime's Take:* Suspicious content detected. Treat claims with significant skepticism." ]
  end.

(** The local variable [category] of [get_detective_reaction]. *)
Definition reaction_category {U : Unicode} (bias_level factuality : str)
  : category :=
  let bias_lower := str_lower bias_level in
  let fact_lower := str_lower factuality in
  if contains (u "low") bias_lower && contains (u "factual") fact_lower
  then low_factual
  else if contains (u "high") bias_lower
          || contains (u "questionable") fact_lower
  then high_questionable
  else moderate_mixed.

(** ** The handlers' monad

    A handler draws from the random source and talks to the chat
    transport and to the two services.  The world holds the stream of
    raw draws with the position of the next one, and the calls made so
    far, oldest first. *)

Inductive event :=
| ReplyText (text : str)
| EditText (text : str) (markdown : bool)
| VideosList (part : str) (id : str)
| GenerateContent (prompt : str).

Record world := { draws : nat -> nat; next : nat; log : list event }.

Definition M (A : Type) := world -> A * world.

Definition ret {A : Type} (a : A) : M A := fun w => (a, w).

Definition bind {A B : Type} (m : M A) (k : A -> M B) : M B :=
  fun w => let (a, w') := m w in k a w'.

Notation "x <- m ;; k" := (bind m (fun x => k))
  (at level 61, m at next level, right associativity).
Notation "m ;;; k" := (bind m (fun _ => k))
  (at level 61, right associativity).

Definition emit (e : event) : M unit :=
  fun w => (tt, {| draws := draws w; next := next w; log := log w ++ [e] |}).

Definition draw : M nat :=
  fun w => (draws w (next w),
            {| draws := draws w; next := S (next w); log := log w |}).

(** [random.choice(l)] on a non-empty list. *)
Definition choice (l : list str) : M str :=
  r <- draw ;; ret (nth (r mod length l) l []).

(** [random.randint(a, b)] *)
Definition randint (a b : Z) : M Z :=
  r <- draw ;; ret (a + Z.of_nat r mod (b - a + 1))%Z.

Definition get_detective_reaction {U : Unicode} (bias_level factuality : str)
  : M str :=
  choice (reactions (reaction_category bias_level factuality)).

(** ** summarize_youtube *)

(** The catalog's answer, as far as the handler reads it. *)
Record snippet_t := {
  title : option str;
  description : option str;
  channelTitle : option str
}.

Record statistics_t := { viewCount : option count_arg }.

Record content_details_t := { duration : option str }.

Record video_t := {
  snippet : option snippet_t;
  statistics : option statistics_t;
  contentDetails : option content_details_t
}.

Record response_t := { items : option (list video_t) }.

(** What the first [try] block binds when it runs to its end. *)
Record details := {
  d_title : str;
  d_description : str;
  d_channel : str;
  d_duration : str;
  d_views : str
}.

Definition loading_messages : list str :=
  [ u "🔍 Investigating the evidence...";
    u "🕵️ Detective Jaime on the case...";
    u "👃 Analyzing content patterns...";
    u "📋 Gathering intelligence..." ].

Definition invalid_evidence : str :=
  u "❌ *Invalid Evidence:* That's not a valid YouTube link. Please provide a proper URL.".

Definition video_not_found : str :=
  u "❌ *Video Not Found:* This video is unavailable or has been removed.".

Definition divider : str := u "━━━━━━━━━━━━━━━━━━".

(** The body of the first [try] block after the catalog has answered:
    [None] when there is no item, the bound variables otherwise. *)
Definition read_details {U : Unicode} (info : response_t)
  : result (option details) :=
  match items info with
  | None | Some [] => Ok None
  | Some (video_data :: _) =>
    try_bind (getitem "snippet" (snippet video_data)) (fun snippet =>
    let stats := get_default (statistics video_data) {| viewCount := None |} in
    let content_details :=
      get_default (contentDetails video_data) {| duration := None |} in
    try_bind (getitem "title" (title snippet)) (fun title =>
    let description :=
      get_default (description snippet) (u "No description available") in
    let channel := get_default (channelTitle snippet) (u "Unknown") in
    let duration :=
      format_duration (get_default (duration content_details) (u "PT0S")) in
    try_bind (format_views (get_default (viewCount stats) (CInt 0)))
      (fun views =>
    Ok (Some {| d_title := title; d_description := description;
                d_channel := channel; d_duration := duration;
                d_views := views |}))))
  end.

Definition prompt_of (title channel description : str) : str :=
  nl ++
  u "Analyze this YouTube video and provide a professional assessment:" ++ nl ++
  nl ++
  u "Title: " ++ title ++ nl ++
  u "Channel: " ++ channel ++ nl ++
  u "Description: " ++ description ++ nl ++
  nl ++
  u "**FORMAT YOUR RESPONSE EXACTLY LIKE THIS:**" ++ nl ++
  nl ++
  u "Key Points:" ++ nl ++
  u "- [First main point - be specific and clear]" ++ nl ++
  u "- [Second main point]" ++ nl ++
  u "- [Third main point]" ++ nl ++
  u "- [Fourth main point]" ++ nl ++
  u "- [Fifth main point]" ++ nl ++
  nl ++
  u "Quick Analysis:" ++ nl ++
  u "Bias: [Low/Moderate/High]" ++ nl ++
  u "[Brief professional explanation]" ++ nl ++
  nl ++
  u "Factuality: [Factual/Opinion/Mixed]" ++ nl ++
  u "[Brief professional assessment]" ++ nl ++
  nl ++
  u "Type: [News/Educational/Entertainment/Commentary]" ++ nl ++
  nl ++
  u "Keep it concise and professional. Each bullet should be 1-2 sentences max." ++ nl.

(** [s.strip()] *)
Definition strip {U : Unicode} (s : str) : str :=
  rev (drop_while is_space (rev (drop_while is_space s))).

(** [Bias:\s*(\w+)] and [Factuality:\s*(\w+)] *)
Definition label_re {U : Unicode} (label : string) : regex :=
  Cat (Str (u label))
      (Cat (Star (Class_ is_space)) (Group 1 (Plus (Class_ is_word)))).

(** [m.group(1) if m else "Unknown"]; group 1 takes part in every
    match of [label_re]. *)
Definition level_of (m : option caps) : str :=
  match m with
  | Some g => get_default (g 1%nat) []
  | None => u "Unknown"
  end.

Definition report (number : Z) (video_id : str) (d : details)
           (analysis detective_reaction : str) : str :=
  (u "🕵️ *INVESTIGATION REPORT #" ++ str_of_Z number ++ u "*" ++ nl) ++
  (divider ++ nl ++ nl) ++
  (u "*Title:* " ++ d_title d ++ nl) ++
  (u "*Channel:* " ++ d_channel d ++ nl) ++
  (u "*Duration:* " ++ d_duration d ++ nl) ++
  (u "*Views:* " ++ d_views d ++ nl) ++
  (u "*Link:* https://youtube.com/watch?v=" ++ video_id ++ nl ++ nl) ++
  (analysis ++ nl ++ nl) ++
  (divider ++ nl) ++
  detective_reaction.

Section Pipeline.

Context {U : Unicode}.

(** [youtube.videos().list(part=..., id=...).execute()] *)
Variable youtube : str -> str -> result response_t.

(** [model.generate_content([prompt]).text] *)
Variable model : str -> result str.

Definition videos_list (part id : str) : M (result response_t) :=
  emit (VideosList part id) ;;; ret (youtube part id).

Definition generate_content (prompt : str) : M (result str) :=
  emit (GenerateContent prompt) ;;; ret (model prompt).

(** The second [try] block. *)
Definition analyse (video_id : str) (d : details) : M unit :=
  let prompt := prompt_of (d_title d) (d_channel d) (d_description d) in
  result <- generate_content prompt ;;
  match result with
  | Raise e => emit (EditText (u "❌ *Analysis Error:* " ++ exn_str e) false)
  | Ok text =>
    let analysis := strip text in
    let bias_match := re_search (label_re "Bias:") analysis in
    let fact_match := re_search (label_re "Factuality:") analysis in
    let bias_level := level_of bias_match in
    let factuality := level_of fact_match in
    detective_reaction <- get_detective_reaction bias_level factuality ;;
    number <- randint 1000 9999 ;;
    emit (EditText
            (report number video_id d analysis detective_reaction) true)
  end.

Definition summarize_youtube (url : str) : M unit :=
  loading <- choice loading_messages ;;
  emit (ReplyText loading) ;;;
  match extract_video_id url with
  | None | Some [] => emit (EditText invalid_evidence false)
  | Some video_id =>
    info <- videos_list (u "snippet,contentDetails,statistics") video_id ;;
    match try_bind info read_details with
    | Raise e =>
      emit (EditText
              (u "❌ *Fetch Error:* Unable to retrieve video data: "
               ++ exn_str e) false)
    | Ok None => emit (EditText video_not_found false)
    | Ok (Some d) =>
      emit (EditText (u "🤖 Running analysis algorithms...") false) ;;;
      analyse video_id d
    end
  end.

(** ** handle_message *)

Definition not_a_link : list str :=
  [ u "🤔 That's not a YouTube link. Please send a valid YouTube URL for analysis.";
    u "❓ I need a YouTube link to investigate. Try: youtube.com/watch?v=...";
    u "🐟 Send me a YouTube link and I'll analyze it for you!" ].

(** What the handler reads of an update.  [update.effective_message]
    is the message that the update carries, whether it is a new
    message, an edited message or a channel post; [update.message] is
    that message when the update is a new message and [None] for the
    other kinds.  The handler registered for text is given updates of
    all these kinds. *)
Record message_t := { text : option str }.

Record update_t := {
  message : option message_t;
  effective_message : message_t
}.

(** [update.message.reply_text(random.choice(reactions))].  The
    attribute is looked up on [update.message] before the argument is
    evaluated: on [None] the call raises with nothing drawn and
    nothing sent. *)
Definition reply_not_a_link (update : update_t) : M (result unit) :=
  match message update with
  | None =>
    ret (Raise (Exception
                  (u "'NoneType' object has no attribute 'reply_text'")))
  | Some _ =>
    reaction <- choice not_a_link ;;
    emit (ReplyText reaction) ;;;
    ret (Ok tt)
  end.

(** The result is [Raise] when the exception leaves the handler. *)
Definition handle_message (update : update_t) : M (result unit) :=
  match text (effective_message update) with
  | Some ((_ :: _) as text) =>
    if contains (u "youtube.com") text || contains (u "youtu.be") text
    then summarize_youtube text ;;; ret (Ok tt)
    else reply_not_a_link update
  | _ => reply_not_a_link update
  end.

End Pipeline.

(** ** Reference readings of the patterns

    Direct scanners, stated without the matcher; the matcher is shown
    below to agree with them. *)

(** A non-empty run of class [p] followed by the letter [c]: the run
    and what follows the letter. *)
Definition unit_split (p : char -> bool) (c : char) (s : str)
  : option (str * str) :=
  match take_while p s, drop_while p s with
  | (_ :: _) as ds, x :: t => if (x =? c)%N then Some (ds, t) else None
  | _, _ => None
  end.

Definition scan_unit {U : Unicode} (c : ascii) (s : str)
  : option str * str :=
  match unit_split is_decimal (ch c) s with
  | Some (ds, t) => (Some ds, t)
  | None => (None, s)
  end.

(** The hours, minutes and seconds read after [PT], in that order. *)
Definition scan_duration {U : Unicode} (d : str)
  : option (option str * option str * option str) :=
  if is_prefix (u "PT") d then
    let (h, s1) := scan_unit "H" (skipn 2 d) in
    let (m, s2) := scan_unit "M" s1 in
    let (s, _) := scan_unit "S" s2 in
    Some (h, m, s)
  else None.

Definition render (h m s : option str) : str :=
  let parts := part h "h" ++ part m "m" ++ part s "s" in
  match parts with
  | [] => u "0s"
  | _ => join (u " ") parts
  end.

(** One component of a duration token. *)
Definition component (v : option str) (c : ascii) : str :=
  match v with
  | Some ds => ds ++ [ch c]
  | None => []
  end.

(** The token [PT<h>H<m>M<s>S] with the components that are present. *)
Definition token (h m s : option str) : str :=
  u "PT" ++ component h "H" ++ component m "M" ++ component s "S".

(** A component is well formed when its digits are a non-empty run of
    [\d] characters. *)
Definition digits_ok {U : Unicode} (v : option str) : bool :=
  match v with
  | Some ds => negb (str_eqb ds []) && forallb is_decimal ds
  | None => true
  end.

(** The printed form of a component: its digits and the unit letter. *)
Definition shown (v : option str) (unit : string) : list str :=
  match v with
  | Some ds => [ds ++ u unit]
  | None => []
  end.

(** [d] is a duration token: [PT] and then, in this order and each at
    most once, hours, minutes and seconds. *)
Definition is_token {U : Unicode} (d : str) : Prop :=
  exists h m s,
    digits_ok h = true /\ digits_ok m = true /\ digits_ok s = true
    /\ d = token h m s.

(** [rest] begins with a component: a non-empty run of digits and then
    one of the letters [H], [M], [S]. *)
Definition component_ahead {U : Unicode} (rest : str) : Prop :=
  exists ds c t,
    rest = ds ++ c :: t /\ ds <> [] /\ forallb is_decimal ds = true
    /\ (c = ch "H" \/ c = ch "M" \/ c = ch "S").

(** Eleven identifier characters at the head of [s]. *)
Definition id_at (s : str) : option str :=
  if (11 <=? length s)%nat && forallb id_char (firstn 11 s)
  then Some (firstn 11 s) else None.

(** The identifier right after the lead-in [lead] at the head of [s]. *)
Definition after_lead (lead : string) (s : str) : option str :=
  if is_prefix (u lead) s then id_at (skipn (length (u lead)) s) else None.

(** The three families of URL shapes, in the order of [patterns]. *)
Inductive family := watch_or_path | embed | short_host.

(** What the pattern of a family finds at the head of [s]. *)
Definition hit_of (f : family) (s : str) : option str :=
  match f with
  | watch_or_path =>
    match after_lead "v=" s with
    | Some i => Some i
    | None => after_lead "/" s
    end
  | embed => after_lead "embed/" s
  | short_host => after_lead "youtu.be/" s
  end.

Definition pattern_of (f : family) : regex :=
  match f with
  | watch_or_path => nth 0 patterns Empty
  | embed => nth 1 patterns Empty
  | short_host => nth 2 patterns Empty
  end.

(** The first position, from the left, at which [hit] finds something. *)
Fixpoint find_first (hit : str -> option str) (s : str) : option str :=
  match hit s with
  | Some i => Some i
  | None =>
    match s with
    | [] => None
    | _ :: t => find_first hit t
    end
  end.

(** An occurrence in [url], after the text [pre], of the lead-in
    [lead] followed by the eleven identifier characters [id]. *)
Definition occurs (lead : string) (id pre url : str) : Prop :=
  exists post, url = pre ++ u lead ++ id ++ post
               /\ length id = 11 /\ forallb id_char id = true.

Definition shape (f : family) (id pre url : str) : Prop :=
  match f with
  | watch_or_path => occurs "v=" id pre url \/ occurs "/" id pre url
  | embed => occurs "embed/" id pre url
  | short_host => occurs "youtu.be/" id pre url
  end.

Definition present (f : family) (url : str) : Prop :=
  exists id pre, shape f id pre url.

(** [id] belongs to the occurrence of family [f] that starts first. *)
Definition leftmost (f : family) (id url : str) : Prop :=
  exists pre, shape f id pre url /\
    forall id' pre', shape f id' pre' url -> length pre <= length pre'.

(** What [label_re label] finds at the head of [s]: after the label
    and any white space, the longest run of word characters. *)
Definition label_at {U : Unicode} (label : string) (s : str) : option str :=
  if is_prefix (u label) s then
    match drop_while is_space (skipn (length (u label)) s) with
    | w :: t => if is_word w then Some (w :: take_while is_word t) else None
    | [] => None
    end
  else None.

(** The text holds the label, then white space or none, then a word
    character. *)
Definition field_present {U : Unicode} (label : string) (text : str) : Prop :=
  exists pre ws w post,
    text = pre ++ u label ++ ws ++ w :: post
    /\ forallb is_space ws = true /\ is_word w = true.

(** [r] is the number of tenths [n] printed with one decimal digit and
    the suffix, and [n / 10] is a tenth nearest to [count / b]. *)
Definition tenths_of (count b : Z) (suffix : string) (r : result str) : Prop :=
  exists n : Z,
    r = Ok (str_of_Z (n / 10) ++ u "." ++ str_of_Z (n mod 10) ++ u suffix)
    /\ (0 <= n)%Z
    /\ length (str_of_Z (n mod 10)) = 1
    /\ (- b <= 2 * (10 * count - n * b) <= b)%Z.

(** The position of a family in [patterns]. *)
Definition rank (f : family) : nat :=
  match f with
  | watch_or_path => 0
  | embed => 1
  | short_host => 2
  end.

Definition hit_caps (i : str) : caps := set_group 1 i no_caps.

(** ** The events of a request

    What a request sends and calls, listed without the monad. *)

Definition facets : str := u "snippet,contentDetails,statistics".

Section Events.

Context {U : Unicode}.
Variable youtube : str -> str -> result response_t.
Variable model : str -> result str.

(** The events of the second [try] block, given the next two draws. *)
Definition analyse_events (r1 r2 : nat) (video_id : str) (d : details)
  : list event :=
  let prompt := prompt_of (d_title d) (d_channel d) (d_description d) in
  GenerateContent prompt ::
  match model prompt with
  | Raise e => [EditText (u "❌ *Analysis Error:* " ++ exn_str e) false]
  | Ok text =>
    let analysis := strip text in
    let bias_level := level_of (re_search (label_re "Bias:") analysis) in
    let factuality :=
      level_of (re_search (label_re "Factuality:") analysis) in
    let l := reactions (reaction_category bias_level factuality) in
    let detective_reaction := nth (r1 mod length l) l [] in
    let number := (1000 + Z.of_nat r2 mod (9999 - 1000 + 1))%Z in
    [EditText (report number video_id d analysis detective_reaction) true]
  end.

(** The events of [summarize_youtube], given the draws from [r] on. *)
Definition summarize_events (r : nat -> nat) (url : str) : list event :=
  ReplyText (nth (r 0 mod length loading_messages) loading_messages []) ::
  match extract_video_id url with
  | None | Some [] => [EditText invalid_evidence false]
  | Some video_id =>
    VideosList facets video_id ::
    match try_bind (youtube facets video_id) read_details with
    | Raise e =>
      [EditText (u "❌ *Fetch Error:* Unable to retrieve video data: "
                 ++ exn_str e) false]
    | Ok None => [EditText video_not_found false]
    | Ok (Some d) =>
      EditText (u "🤖 Running analysis algorithms...") false ::
      analyse_events (r 1) (r 2) video_id d
    end
  end.

End Events.

(** ** An interpreter restricted to ASCII

    Tables that treat every code point from 128 on as caseless and as
    neither digit, letter nor space.  They satisfy the interface, and
    make the functions above computable on closed inputs. *)

Definition ascii_int_of_str (s : str) : result Z :=
  match NilZero.int_of_string (string_of_list_ascii (map ascii_of_N s)) with
  | Some d => Ok (Z.of_int d)
  | None => Raise (Exception (u "invalid literal for int() with base 10"))
  end.

(** The laws of the interface hold for these tables. *)

Ltac codes :=
  unfold ascii_space, ascii_word, ascii_digit, ascii_lower, id_char,
    in_range, is_ascii in *;
  repeat match goal with
         | |- context [ch ?a] =>
           let v := eval vm_compute in (ch a) in change (ch a) with v
         | H : context [ch ?a] |- _ =>
           let v := eval vm_compute in (ch a) in change (ch a) with v in H
         end.

Ltac cmp :=
  repeat match goal with
         | |- context [(?a <=? ?b)%N] => destruct (N.leb_spec a b)
         | |- context [(?a <? ?b)%N] => destruct (N.ltb_spec a b)
         | |- context [(?a =? ?b)%N] => destruct (N.eqb_spec a b)
         | H : context [(?a <=? ?b)%N] |- _ => destruct (N.leb_spec a b)
         | H : context [(?a <? ?b)%N] |- _ => destruct (N.ltb_spec a b)
         | H : context [(?a =? ?b)%N] |- _ => destruct (N.eqb_spec a b)
         end; simpl in *; try congruence; try lia.

Lemma ascii_space_not_word c : ascii_space c = true -> ascii_word c = false.
Proof. codes. cmp. Qed.

Lemma str_of_Z_chars z :
  map ascii_of_N (str_of_Z z)
  = list_ascii_of_string (NilZero.string_of_int (Z.to_int z)).
Proof.
  unfold str_of_Z. rewrite map_map.
  erewrite map_ext; [apply map_id|]. intros a. apply ascii_N_embedding.
Qed.

Lemma ascii_int_of_str_decimal z :
  (0 <= z < 10 ^ 18)%Z -> ascii_int_of_str (str_of_Z z) = Ok z.
Proof.
  intros _. unfold ascii_int_of_str.
  rewrite str_of_Z_chars, string_of_list_ascii_of_string.
  rewrite NilZero.isi.
  - now rewrite DecimalZ.of_to.
  - destruct z; simpl; try discriminate.
    intros [= H]. now apply DecimalPos.Unsigned.to_uint_nonnil in H.
  - destruct z; simpl; try discriminate.
    intros [= H]. now apply DecimalPos.Unsigned.to_uint_nonnil in H.
Qed.

#[export] Instance ascii_tables : Unicode := {|
  str_lower := map ascii_lower;
  is_decimal := ascii_digit;
  is_word := ascii_word;
  is_space := ascii_space;
  int_of_str := ascii_int_of_str;
  str_lower_ascii := fun _ _ => eq_refl;
  is_decimal_ascii := fun _ _ => eq_refl;
  is_word_ascii := fun _ _ => eq_refl;
  is_space_ascii := fun _ _ => eq_refl;
  space_not_word := ascii_space_not_word;
  int_of_str_decimal := ascii_int_of_str_decimal
|}.

(** ** A sample request

    The link https://youtube.com/watch?v=dQw4w9WgXcQ, for which the
    catalog returns the title Sample, the channel Chan, the duration
    PT3M33S and the view count 1000000. *)

Definition sample_video : video_t :=
  {| snippet := Some {| title := Some (u "Sample");
                        description := None;
                        channelTitle := Some (u "Chan") |};
     statistics := Some {| viewCount := Some (CStr (u "1000000")) |};
     contentDetails := Some {| duration := Some (u "PT3M33S") |} |}.

Definition sample_details : details :=
  {| d_title := u "Sample";
     d_description := u "No description available";
     d_channel := u "Chan";
     d_duration := u "3m 33s";
     d_views := u "1.0M" |}.

Definition sample_youtube : str -> str -> result response_t :=
  fun _ _ => Ok {| items := Some [sample_video] |}.

Definition sample_model : str -> result str :=
  fun _ => Ok (u "Bias: Low" ++ nl ++ u "Factuality: Factual").

Definition sample_world : world :=
  {| draws := fun n => n; next := 0; log := [] |}.

Definition sample_url : str := u "https://youtube.com/watch?v=dQw4w9WgXcQ".

(** The text of the last message of the sample request. *)
Definition sample_report : str :=
  match last (log (snd (summarize_youtube (U := ascii_tables)
                          sample_youtube sample_model sample_url
                          sample_world)))
             (ReplyText []) with
  | EditText text _ => text
  | _ => []
  end.

(** ** Readings used by the further properties *)

(** No lead-in of the first pattern that starts at the head of [q] can
    be completed, whatever text follows [q]: the head is neither a
    slash nor the letter v, or one of the characters that would have
    to belong to the identifier is outside its class. *)
Definition blocked (q : str) : bool :=
  match q with
  | [] => true
  | c :: r =>
    if (c =? ch "/")%N
    then existsb (fun x => negb (id_char x)) (firstn 11 r)
    else if (c =? ch "v")%N then
      match r with
      | [] => false
      | d :: r' =>
        if (d =? ch "=")%N
        then existsb (fun x => negb (id_char x)) (firstn 11 r')
        else true
      end
    else true
  end.

(** No lead-in that starts inside [p] can be completed in a text that
    begins with [p ++ q]. *)
Fixpoint all_blocked (p q : str) : bool :=
  match p with
  | [] => true
  | _ :: r => blocked (p ++ q) && all_blocked r q
  end.

Definition is_reply (e : event) : bool :=
  match e with ReplyText _ => true | _ => false end.

Definition is_edit (e : event) : bool :=
  match e with EditText _ _ => true | _ => false end.

Definition is_catalog_call (e : event) : bool :=
  match e with VideosList _ _ => true | _ => false end.

Definition is_generative_call (e : event) : bool :=
  match e with GenerateContent _ => true | _ => false end.

(** * Properties *)

(** ** Strings *)

Lemma is_prefix_spec p s :
  is_prefix p s = true <-> exists t, s = p ++ t.
Proof.
  revert s. induction p as [|a p IH]; intros s; simpl.
  - split; eauto.
  - destruct s as [|b s].
    + split; [discriminate | intros [t H]; discriminate].
    + rewrite andb_true_iff, N.eqb_eq, IH. split.
      * intros [-> [t ->]]. now exists t.
      * intros [t [= -> ->]]. eauto.
Qed.

Lemma is_prefix_app p t : is_prefix p (p ++ t) = true.
Proof. apply is_prefix_spec. eauto. Qed.

Lemma contains_spec needle hay :
  contains needle hay = true <-> exists pre post, hay = pre ++ needle ++ post.
Proof.
  induction hay as [|x hay IH]; simpl.
  - rewrite orb_false_r, is_prefix_spec. split.
    + intros [t H]. now exists [], t.
    + intros [pre [post H]]. destruct pre; simpl in H; [eauto | discriminate].
  - rewrite orb_true_iff, is_prefix_spec, IH. split.
    + intros [[t H] | [pre [post H]]].
      * now exists [], t.
      * exists (x :: pre), post. now rewrite H.
    + intros [pre [post H]]. destruct pre as [|y pre]; simpl in H.
      * left. eauto.
      * right. injection H as _ H. eauto.
Qed.



Lemma take_drop_while p s : take_while p s ++ drop_while p s = s.
Proof.
  induction s as [|x s IH]; simpl; [reflexivity|].
  destruct (p x); simpl; [now rewrite IH | reflexivity].
Qed.

Lemma take_while_all p s : forallb p (take_while p s) = true.
Proof.
  induction s as [|x s IH]; simpl; [reflexivity|].
  destruct (p x) eqn:E; simpl; [now rewrite E | reflexivity].
Qed.

Lemma drop_while_head p s x t : drop_while p s = x :: t -> p x = false.
Proof.
  induction s as [|y s IH]; simpl; [discriminate|].
  destruct (p y) eqn:E; [exact IH | now intros [= -> _]].
Qed.

Lemma take_while_app p ds x t :
  forallb p ds = true -> p x = false -> take_while p (ds ++ x :: t) = ds.
Proof.
  intros H Hx. induction ds as [|d ds IH]; simpl in *.
  - now rewrite Hx.
  - apply andb_true_iff in H as [-> H]. now rewrite IH.
Qed.

Lemma drop_while_app p ds x t :
  forallb p ds = true -> p x = false -> drop_while p (ds ++ x :: t) = x :: t.
Proof.
  intros H Hx. induction ds as [|d ds IH]; simpl in *.
  - now rewrite Hx.
  - apply andb_true_iff in H as [-> H]. now rewrite IH.
Qed.


Lemma drop_while_all p ds : forallb p ds = true -> drop_while p ds = [].
Proof.
  induction ds as [|d ds IH]; simpl; [reflexivity|].
  intros H. apply andb_true_iff in H as [-> H]. now rewrite IH.
Qed.

Lemma drop_while_length p s : length (drop_while p s) <= length s.
Proof.
  induction s as [|x s IH]; simpl; [lia|]. destruct (p x); simpl; lia.
Qed.

Lemma firstn_drop_while p s :
  firstn (length s - length (drop_while p s)) s = take_while p s.
Proof.
  rewrite <- (take_drop_while p s) at 1 3.
  rewrite length_app, Nat.add_sub, firstn_app, Nat.sub_diag, firstn_all.
  simpl. apply app_nil_r.
Qed.

(** ** The matcher on the shapes the patterns use *)

Section MatcherLemmas.

Variable A : Type.
Implicit Types (k : cont A) (s : str) (g : caps).

(** A literal string matches as a prefix test. *)
Lemma rmatch_Str l s g k :
  rmatch (Str l) s g k
  = if is_prefix l s then k (skipn (length l) s) g else None.
Proof.
  revert s. induction l as [|c l IH]; intros s; simpl; [reflexivity|].
  destruct s as [|x s]; [reflexivity|].
  rewrite N.eqb_sym. destruct (c =? x)%N; simpl; [apply IH | reflexivity].
Qed.

(** Exactly [n] characters of a class. *)
Lemma rmatch_Rep_class n p s g k :
  rmatch (Rep n (Class_ p)) s g k
  = if (n <=? length s)%nat && forallb p (firstn n s)
    then k (skipn n s) g else None.
Proof.
  revert s. induction n as [|n IH]; intros s; simpl; [reflexivity|].
  destruct s as [|x s]; simpl; [reflexivity|].
  destruct (p x); simpl; [apply IH | now rewrite andb_false_r].
Qed.

(** A greedy run over a class stops at the end of the longest run as
    soon as the rest of the pattern, when it fails there, also fails
    at every earlier stop. *)
Lemma star_class p k g :
  (forall x t, p x = true ->
               k (drop_while p t) g = None -> k (x :: t) g = None) ->
  forall n s, length s <= n ->
  star_loop (rmatch (Class_ p)) k n s g = k (drop_while p s) g.
Proof.
  intros Hk. induction n as [|n IH]; intros s Hn.
  - destruct s; [reflexivity | simpl in Hn; lia].
  - destruct s as [|x s]; [reflexivity|]. simpl.
    destruct (p x) eqn:Hx; [|reflexivity].
    assert (Hlt : (length s <? S (length s))%nat = true)
      by (apply Nat.ltb_lt; lia).
    rewrite Hlt, IH by (simpl in Hn; lia).
    destruct (k (drop_while p s) g) eqn:E; [reflexivity|].
    now apply Hk.
Qed.

(** The rest of the pattern never fails: the run is the longest. *)
Lemma star_class_total p k g s :
  (forall t, k t g <> None) ->
  rmatch (Star (Class_ p)) s g k = k (drop_while p s) g.
Proof.
  intros Hk. simpl. apply star_class; [|lia].
  intros x t _ E. now apply Hk in E.
Qed.

(** The rest of the pattern refuses a character of the class: no
    shorter run can succeed either. *)
Lemma star_class_reject p k g s :
  (forall x t, p x = true -> k (x :: t) g = None) ->
  rmatch (Star (Class_ p)) s g k = k (drop_while p s) g.
Proof.
  intros Hk. simpl. apply star_class; [|lia].
  intros x t Hx _. now apply Hk.
Qed.

(** [(p+)c] with the run captured in group [i], for a letter [c]
    outside the class. *)
Lemma rmatch_unit i p c s g k :
  p c = false ->
  rmatch (Cat (Group i (Plus (Class_ p))) (Lit c)) s g k
  = match unit_split p c s with
    | Some (ds, t) => k t (set_group i ds g)
    | None => None
    end.
Proof.
  intros Hc. unfold unit_split. destruct s as [|x s]; [reflexivity|].
  cbn [rmatch Plus take_while drop_while].
  destruct (p x) eqn:Hx; [|reflexivity].
  match goal with
  | |- star_loop _ ?k' _ _ _ = _ =>
    transitivity (k' (drop_while p s) g);
      [apply (@star_class p k' g); [|lia] |]
  end.
  - intros y t Hy _. cbn beta.
    destruct (N.eqb_spec y c) as [->|]; [congruence | reflexivity].
  - cbn beta. pose proof (firstn_drop_while p s) as Hf.
    pose proof (drop_while_length p s) as Hl.
    destruct (drop_while p s) as [|y t] eqn:E; [reflexivity|].
    destruct (y =? c)%N; [|reflexivity].
    cbn [length] in *.
    replace (S (length s) - S (length t)) with (S (length s - S (length t)))
      by lia.
    cbn [firstn]. now rewrite Hf.
Qed.

Lemma rmatch_opt_unit i p c s g k :
  p c = false -> (forall t g', k t g' <> None) ->
  rmatch (Opt (Cat (Group i (Plus (Class_ p))) (Lit c))) s g k
  = match unit_split p c s with
    | Some (ds, t) => k t (set_group i ds g)
    | None => k s g
    end.
Proof.
  intros Hc Hk. unfold Opt.
  change (rmatch (Alt ?r Empty) s g k)
    with (match rmatch r s g k with Some a => Some a | None => k s g end).
  rewrite rmatch_unit by assumption.
  destruct (unit_split p c s) as [[ds t]|]; [|reflexivity].
  destruct (k t (set_group i ds g)) eqn:E; [reflexivity|].
  now apply Hk in E.
Qed.

End MatcherLemmas.

Lemma unit_split_some p c s ds t :
  unit_split p c s = Some (ds, t) ->
  s = ds ++ c :: t /\ ds <> [] /\ forallb p ds = true.
Proof.
  unfold unit_split. intros H.
  pose proof (take_drop_while p s) as E.
  pose proof (take_while_all p s) as F.
  destruct (take_while p s) as [|d ds']; [discriminate|].
  destruct (drop_while p s) as [|x t']; [discriminate|].
  destruct (N.eqb_spec x c) as [->|]; [|discriminate].
  injection H as <- <-. repeat split; [now rewrite E | discriminate | exact F].
Qed.

Lemma unit_split_app p c ds t :
  p c = false -> ds <> [] -> forallb p ds = true ->
  unit_split p c (ds ++ c :: t) = Some (ds, t).
Proof.
  intros Hc Hd F. unfold unit_split.
  rewrite take_while_app, drop_while_app by assumption.
  destruct ds; [congruence|]. now rewrite N.eqb_refl.
Qed.

Lemma unit_split_other p c ds x t :
  p x = false -> x <> c -> forallb p ds = true ->
  unit_split p c (ds ++ x :: t) = None.
Proof.
  intros Hx Hne F. unfold unit_split.
  rewrite take_while_app, drop_while_app by assumption.
  destruct ds; [reflexivity|].
  destruct (N.eqb_spec x c); [congruence | reflexivity].
Qed.

Lemma unit_split_end p c ds :
  forallb p ds = true -> unit_split p c ds = None.
Proof.
  intros F. unfold unit_split. rewrite drop_while_all by assumption.
  now destruct (take_while p ds).
Qed.

(** ** format_duration against the scanner *)

Section Duration.

Context {U : Unicode}.

Lemma not_decimal_letter (c : ascii) :
  is_ascii (ch c) = true -> ascii_digit (ch c) = false ->
  is_decimal (ch c) = false.
Proof. intros Ha Hd. now rewrite is_decimal_ascii. Qed.

Lemma H_not_decimal : is_decimal (ch "H") = false.
Proof. now apply not_decimal_letter. Qed.

Lemma M_not_decimal : is_decimal (ch "M") = false.
Proof. now apply not_decimal_letter. Qed.

Lemma S_not_decimal : is_decimal (ch "S") = false.
Proof. now apply not_decimal_letter. Qed.

Lemma format_duration_scan d :
  format_duration d
  = match scan_duration d with
    | Some (h, m, s) => render h m s
    | None => u "Unknown"
    end.
Proof.
  unfold format_duration, scan_duration, re_match, duration_re.
  cbn [rmatch]. rewrite rmatch_Str.
  destruct (is_prefix (u "PT") d); [|reflexivity].
  change (length (u "PT")) with 2.
  rewrite rmatch_opt_unit; [|apply H_not_decimal|].
  2:{ intros t g'. cbn [rmatch].
      rewrite rmatch_opt_unit; [|apply M_not_decimal|].
      2:{ intros t' g''. rewrite rmatch_opt_unit;
            [|apply S_not_decimal|discriminate].
          now destruct (unit_split _ _ t') as [[? ?]|]. }
      destruct (unit_split _ _ t) as [[? ?]|];
        (rewrite rmatch_opt_unit; [|apply S_not_decimal|discriminate]);
        now destruct (unit_split _ _ _) as [[? ?]|]. }
  unfold scan_unit.
  destruct (unit_split _ _ (skipn 2 d)) as [[h s1]|];
    cbn [rmatch];
    (rewrite rmatch_opt_unit; [|apply M_not_decimal|]);
    try (intros t' g''; rewrite rmatch_opt_unit;
         [|apply S_not_decimal|discriminate];
         now destruct (unit_split _ _ t') as [[? ?]|]).
  - destruct (unit_split _ _ s1) as [[m s2]|];
      (rewrite rmatch_opt_unit; [|apply S_not_decimal|discriminate]);
      destruct (unit_split _ _ _) as [[s s3]|]; reflexivity.
  - destruct (unit_split _ _ (skipn 2 d)) as [[m s2]|];
      (rewrite rmatch_opt_unit; [|apply S_not_decimal|discriminate]);
      destruct (unit_split _ _ _) as [[s s3]|]; reflexivity.
Qed.

End Duration.

(** ** extract_video_id against the direct search *)

Lemma id_at_spec s i :
  id_at s = Some i <->
  exists post, s = i ++ post /\ length i = 11 /\ forallb id_char i = true.
Proof.
  unfold id_at. split.
  - destruct (Nat.leb_spec 11 (length s)) as [Hl|]; [|discriminate].
    destruct (forallb id_char (firstn 11 s)) eqn:F; [|discriminate].
    intros H. cbn [andb] in H.
    assert (E : i = firstn 11 s) by congruence. subst i.
    exists (skipn 11 s).
    rewrite firstn_skipn, length_firstn. repeat split; [lia | exact F].
  - intros (post & -> & Hl & F).
    rewrite length_app, <- Hl, firstn_app, Nat.sub_diag, firstn_all.
    cbn [firstn]. rewrite app_nil_r, F.
    destruct (Nat.leb_spec (length i) (length i + length post)); [|lia].
    reflexivity.
Qed.

Lemma after_lead_spec lead s i :
  after_lead lead s = Some i <-> occurs lead i [] s.
Proof.
  unfold after_lead, occurs. cbn [app]. split.
  - destruct (is_prefix (u lead) s) eqn:P; [|discriminate].
    apply is_prefix_spec in P as [t ->].
    rewrite skipn_app, Nat.sub_diag, skipn_all. cbn [skipn app].
    rewrite id_at_spec. intros (post & -> & H). now exists post.
  - intros (post & -> & H). rewrite is_prefix_app.
    rewrite skipn_app, Nat.sub_diag, skipn_all. cbn [skipn app].
    apply id_at_spec. now exists post.
Qed.

Lemma find_first_none hit s :
  find_first hit s = None <->
  forall pre post, s = pre ++ post -> hit post = None.
Proof.
  induction s as [|x s IH]; cbn [find_first].
  - split.
    + intros H pre post E. symmetry in E.
      apply app_eq_nil in E as [_ ->]. now destruct (hit []).
    + intros H. now rewrite (H [] []).
  - split.
    + destruct (hit (x :: s)) eqn:E; [discriminate|]. intros H pre post Es.
      destruct pre as [|y pre]; cbn [app] in Es.
      * now subst post.
      * injection Es as _ Es. rewrite IH in H. eauto.
    + intros H. rewrite (H [] (x :: s)) by reflexivity.
      apply IH. intros pre post ->. now apply (H (x :: pre)).
Qed.

Lemma find_first_some hit s i :
  find_first hit s = Some i <->
  exists pre post,
    s = pre ++ post /\ hit post = Some i /\
    forall pre' post', s = pre' ++ post' -> length pre' < length pre ->
                       hit post' = None.
Proof.
  induction s as [|x s IH]; cbn [find_first].
  - split.
    + destruct (hit []) eqn:E; [|discriminate]. intros [= ->].
      exists [], []. repeat split; [exact E|]. cbn [length]. lia.
    + intros (pre & post & E & H & _). symmetry in E.
      apply app_eq_nil in E as [_ ->]. now rewrite H.
  - split.
    + destruct (hit (x :: s)) eqn:E.
      * intros [= ->]. exists [], (x :: s).
        repeat split; [exact E|]. cbn [length]. lia.
      * intros H. apply IH in H as (pre & post & -> & H & Hmin).
        exists (x :: pre), post. repeat split; [exact H|].
        intros pre' post' Es Hl. destruct pre' as [|y pre']; cbn [app] in Es.
        -- now subst post'.
        -- injection Es as _ Es. apply (Hmin pre'); [exact Es|].
           cbn [length] in Hl. lia.
    + intros (pre & post & Es & H & Hmin).
      destruct pre as [|y pre]; cbn [app] in Es.
      * subst post. now rewrite H.
      * injection Es as <- Es.
        rewrite (Hmin [] (x :: s)) by (cbn [length]; reflexivity || lia).
        apply IH. exists pre, post. repeat split; [exact Es | exact H |].
        intros pre' post' -> Hl. apply (Hmin (x :: pre')); [reflexivity|].
        cbn [length]. lia.
Qed.

Lemma rmatch_id_group (A : Type) s g (k : cont A) :
  rmatch id_group s g k
  = match id_at s with
    | Some i => k (skipn 11 s) (set_group 1 i g)
    | None => None
    end.
Proof.
  unfold id_group, id_at. cbn [rmatch]. rewrite rmatch_Rep_class.
  destruct (Nat.leb_spec 11 (length s)) as [Hl|]; [|reflexivity].
  cbn [andb]. destruct (forallb id_char (firstn 11 s)); [|reflexivity].
  rewrite length_skipn.
  replace (length s - (length s - 11)) with 11 by lia. reflexivity.
Qed.

Lemma rmatch_lead (A : Type) lead s g (k : cont A) :
  rmatch (Cat (Str (u lead)) id_group) s g k
  = match after_lead lead s with
    | Some i => k (skipn 11 (skipn (length (u lead)) s)) (set_group 1 i g)
    | None => None
    end.
Proof.
  cbn [rmatch]. rewrite rmatch_Str. unfold after_lead.
  destruct (is_prefix (u lead) s); [apply rmatch_id_group | reflexivity].
Qed.

Lemma re_match_pattern f s :
  re_match (pattern_of f) s = option_map hit_caps (hit_of f s).
Proof.
  unfold re_match. destruct f; cbn [pattern_of patterns nth hit_of].
  - cbn [rmatch]. rewrite !rmatch_Str. unfold after_lead.
    assert (K : forall t g,
               rmatch id_group t g
                 (fun s' g' => rmatch (Star Dot) s' g' (fun _ g0 => Some g0))
               = option_map (fun i => set_group 1 i g) (id_at t)).
    { intros t g. rewrite rmatch_id_group.
      destruct (id_at t); [|reflexivity]. unfold Dot.
      rewrite star_class_total by discriminate. reflexivity. }
    rewrite !K.
    destruct (is_prefix (u "v=") s); [|destruct (is_prefix (u "/") s)];
      try reflexivity.
    destruct (id_at (skipn (length (u "v=")) s)); [reflexivity|].
    cbn [option_map].
    destruct (is_prefix (u "/") s); reflexivity.
  - change (nth 1 patterns Empty) with (Cat (Str (u "embed/")) id_group).
    rewrite rmatch_lead. now destruct (after_lead "embed/" s).
  - change (nth 2 patterns Empty) with (Cat (Str (u "youtu.be/")) id_group).
    rewrite rmatch_lead. now destruct (after_lead "youtu.be/" s).
Qed.

Lemma re_search_pattern f s :
  re_search (pattern_of f) s = option_map hit_caps (find_first (hit_of f) s).
Proof.
  induction s as [|x s IH]; cbn [re_search find_first];
    rewrite re_match_pattern; destruct (hit_of f _); try reflexivity.
  exact IH.
Qed.

Lemma extract_video_id_search url :
  extract_video_id url
  = match find_first (hit_of watch_or_path) url with
    | Some i => Some i
    | None =>
      match find_first (hit_of embed) url with
      | Some i => Some i
      | None => find_first (hit_of short_host) url
      end
    end.
Proof.
  unfold extract_video_id.
  change patterns
    with [pattern_of watch_or_path; pattern_of embed; pattern_of short_host].
  cbn [first_match]. rewrite !re_search_pattern.
  destruct (find_first (hit_of watch_or_path) url); [reflexivity|].
  destruct (find_first (hit_of embed) url); [reflexivity|].
  destruct (find_first (hit_of short_host) url); reflexivity.
Qed.

(** ** The direct search against the shapes *)

Lemma occurs_shift lead id pre url :
  occurs lead id pre url <->
  exists rest, url = pre ++ rest /\ occurs lead id [] rest.
Proof.
  unfold occurs. cbn [app]. split.
  - intros (post & -> & H). exists (u lead ++ id ++ post). eauto.
  - intros (rest & -> & post & -> & H). eauto.
Qed.

Lemma shape_shift f id pre url :
  shape f id pre url <->
  exists rest, url = pre ++ rest /\ shape f id [] rest.
Proof.
  destruct f; cbn [shape]; try apply occurs_shift.
  split.
  - intros [H | H]; apply occurs_shift in H as (rest & E & H);
      exists rest; auto.
  - intros (rest & E & [H | H]); [left | right]; apply occurs_shift; eauto.
Qed.

Lemma hit_of_spec f s i : hit_of f s = Some i <-> shape f i [] s.
Proof.
  destruct f; cbn [hit_of shape]; try apply after_lead_spec.
  rewrite <- !after_lead_spec. split.
  - destruct (after_lead "v=" s); [intros [= ->]; now left | now right].
  - intros [H | H]; [now rewrite H|].
    destruct (after_lead "v=" s) as [j|] eqn:E; [|exact H]. exfalso.
    apply after_lead_spec in E as (p1 & E1 & _).
    apply after_lead_spec in H as (p2 & E2 & _).
    rewrite E1 in E2. discriminate.
Qed.

Lemma find_first_leftmost f url i :
  find_first (hit_of f) url = Some i <-> leftmost f i url.
Proof.
  rewrite find_first_some. unfold leftmost. split.
  - intros (pre & post & E & H & Hmin). exists pre. split.
    + apply shape_shift. exists post. split; [exact E|].
      now apply hit_of_spec.
    + intros id' pre' H'. apply shape_shift in H' as (rest & E' & H').
      apply hit_of_spec in H'.
      destruct (Nat.le_gt_cases (length pre) (length pre')) as [|Hl];
        [assumption|].
      rewrite (Hmin pre' rest E' Hl) in H'. discriminate.
  - intros (pre & H & Hmin). apply shape_shift in H as (post & E & H).
    exists pre, post. repeat split; [exact E | now apply hit_of_spec |].
    intros pre' post' E' Hl.
    destruct (hit_of f post') as [j|] eqn:Hj; [|reflexivity]. exfalso.
    apply hit_of_spec in Hj.
    assert (Hs : shape f j pre' url) by (apply shape_shift; eauto).
    apply Hmin in Hs. lia.
Qed.

Lemma find_first_absent f url :
  find_first (hit_of f) url = None <-> ~ present f url.
Proof.
  rewrite find_first_none. unfold present. split.
  - intros H (id & pre & Hs). apply shape_shift in Hs as (rest & E & Hs).
    apply hit_of_spec in Hs. now rewrite (H pre rest E) in Hs.
  - intros H pre post E.
    destruct (hit_of f post) as [j|] eqn:Hj; [|reflexivity]. exfalso.
    apply H. exists j, pre. apply shape_shift. exists post.
    split; [exact E | now apply hit_of_spec].
Qed.

Lemma find_first_present f url :
  present f url -> exists i, find_first (hit_of f) url = Some i.
Proof.
  intros H. destruct (find_first (hit_of f) url) as [i|] eqn:E; [eauto|].
  now apply find_first_absent in E.
Qed.

Lemma occurs_slash (lead : string) (w id pre url : str) :
  u lead = w ++ u "/" ->
  occurs lead id pre url -> occurs "/" id (pre ++ w) url.
Proof.
  intros E (post & -> & H). exists post. split; [|exact H].
  rewrite E, <- !app_assoc. reflexivity.
Qed.

(** Every occurrence of the second or the third family contains one of
    the first, with the same identifier. *)
Lemma present_path f url : present f url -> present watch_or_path url.
Proof.
  intros (id & pre & H). destruct f; cbn [shape] in H.
  - now exists id, pre.
  - exists id, (pre ++ u "embed"). right.
    now apply (@occurs_slash "embed/" (u "embed")).
  - exists id, (pre ++ u "youtu.be"). right.
    now apply (@occurs_slash "youtu.be/" (u "youtu.be")).
Qed.

Lemma shape_id f id pre url :
  shape f id pre url -> length id = 11 /\ forallb id_char id = true.
Proof.
  destruct f; cbn [shape]; unfold occurs;
    [intros [(post & _ & H) | (post & _ & H)] | intros (post & _ & H) ..];
    exact H.
Qed.

Lemma extract_video_id_present f url :
  present f url ->
  exists id, extract_video_id url = Some id
             /\ leftmost watch_or_path id url
             /\ length id = 11 /\ forallb id_char id = true.
Proof.
  intros H. apply present_path, find_first_present in H as [i E].
  exists i. rewrite extract_video_id_search, E. split; [reflexivity|].
  apply find_first_leftmost in E. split; [exact E|].
  destruct E as (pre & Hs & _). now apply shape_id in Hs.
Qed.

Lemma extract_video_id_absent url :
  (forall f, ~ present f url) -> extract_video_id url = None.
Proof.
  intros H. rewrite extract_video_id_search.
  now rewrite !(proj2 (find_first_absent _ _)) by apply H.
Qed.

Lemma extract_video_id_priority f id url :
  leftmost f id url ->
  (forall f', rank f' < rank f -> ~ present f' url) ->
  extract_video_id url = Some id.
Proof.
  intros Hl Hp. rewrite extract_video_id_search.
  apply find_first_leftmost in Hl.
  destruct f; cbn [rank] in Hp.
  - now rewrite Hl.
  - rewrite (proj2 (find_first_absent watch_or_path url)), Hl;
      [reflexivity|]. apply Hp. cbn [rank]. lia.
  - rewrite (proj2 (find_first_absent watch_or_path url)),
      (proj2 (find_first_absent embed url)), Hl;
      [reflexivity | |]; apply Hp; cbn [rank]; lia.
Qed.

(** ** format_duration on well-formed tokens *)

Section DurationTokens.

Context {U : Unicode}.

Lemma digits_ok_some ds :
  digits_ok (Some ds) = true -> ds <> [] /\ forallb is_decimal ds = true.
Proof.
  cbn [digits_ok]. intros H. apply andb_true_iff in H as [Hn F].
  split; [|exact F]. intros ->. discriminate.
Qed.

Lemma scan_unit_here (c : ascii) ds t :
  is_decimal (ch c) = false -> digits_ok (Some ds) = true ->
  scan_unit c (ds ++ ch c :: t) = (Some ds, t).
Proof.
  intros Hc H. apply digits_ok_some in H as [Hn F].
  unfold scan_unit. now rewrite unit_split_app.
Qed.

Lemma scan_unit_other (c c' : ascii) ds t :
  is_decimal (ch c') = false -> ch c' <> ch c ->
  digits_ok (Some ds) = true ->
  scan_unit c (ds ++ ch c' :: t) = (None, ds ++ ch c' :: t).
Proof.
  intros Hc Hne H. apply digits_ok_some in H as [Hn F].
  unfold scan_unit. now rewrite unit_split_other.
Qed.

Lemma scan_unit_nil (c : ascii) : scan_unit c [] = (None, []).
Proof. reflexivity. Qed.

Ltac scan_step :=
  first
    [ rewrite scan_unit_here by assumption
    | rewrite scan_unit_other by (assumption || discriminate)
    | rewrite scan_unit_nil ];
  cbv beta iota.

Lemma scan_token h m s :
  digits_ok h = true -> digits_ok m = true -> digits_ok s = true ->
  scan_duration (token h m s) = Some (h, m, s).
Proof.
  intros Hh Hm Hs. unfold scan_duration, token.
  rewrite is_prefix_app.
  change (skipn 2 (u "PT" ++ ?x)) with x.
  pose proof H_not_decimal as NH. pose proof M_not_decimal as NM.
  pose proof S_not_decimal as NS.
  destruct h as [h|], m as [m|], s as [s|];
    cbn [component]; rewrite <- ?app_assoc; cbn [app];
    scan_step; scan_step; scan_step; reflexivity.
Qed.

Lemma format_duration_token h m s :
  digits_ok h = true -> digits_ok m = true -> digits_ok s = true ->
  format_duration (token h m s) = render h m s.
Proof.
  intros Hh Hm Hs. now rewrite format_duration_scan, scan_token.
Qed.

End DurationTokens.

(** ** What format_duration makes of an arbitrary string *)

Section DurationAny.

Context {U : Unicode}.

Lemma scan_unit_ok (c : ascii) s v t :
  scan_unit c s = (v, t) -> digits_ok v = true.
Proof.
  unfold scan_unit. destruct (unit_split is_decimal (ch c) s) as [[ds r]|] eqn:E.
  - intros [= <- _]. apply unit_split_some in E as (_ & Hn & F).
    cbn [digits_ok]. rewrite F. now destruct ds.
  - now intros [= <- _].
Qed.

Lemma scan_duration_ok d h m s :
  scan_duration d = Some (h, m, s) ->
  digits_ok h = true /\ digits_ok m = true /\ digits_ok s = true.
Proof.
  unfold scan_duration. destruct (is_prefix (u "PT") d); [|discriminate].
  destruct (scan_unit "H" (skipn 2 d)) as [h' s1] eqn:E1.
  destruct (scan_unit "M" s1) as [m' s2] eqn:E2.
  destruct (scan_unit "S" s2) as [s' s3] eqn:E3.
  intros [= <- <- <-].
  apply scan_unit_ok in E1, E2, E3. auto.
Qed.

Lemma scan_duration_prefix d :
  is_prefix (u "PT") d = true -> exists h m s, scan_duration d = Some (h, m, s).
Proof.
  intros P. unfold scan_duration. rewrite P.
  destruct (scan_unit "H" (skipn 2 d)) as [h s1].
  destruct (scan_unit "M" s1) as [m s2].
  destruct (scan_unit "S" s2) as [s s3]. eauto.
Qed.

Lemma join_head sep x a rest :
  exists t, join sep ((x :: a) :: rest) = x :: t.
Proof. destruct rest; cbn [join app]; eauto. Qed.

Lemma part_head v (unit : string) :
  digits_ok v = true ->
  part v unit = [] \/
  exists x a, part v unit = [x :: a] /\ is_decimal x = true.
Proof.
  destruct v as [[|x ds]|]; cbn [part digits_ok]; auto.
  intros H. apply andb_true_iff in H as [_ F]. cbn [forallb] in F.
  apply andb_true_iff in F as [Hx _]. right. cbn [app]. eauto.
Qed.

(** The output for a matched token starts with a digit. *)
Lemma render_head h m s :
  digits_ok h = true -> digits_ok m = true -> digits_ok s = true ->
  exists x t, render h m s = x :: t /\ is_decimal x = true.
Proof.
  intros Hh Hm Hs. unfold render. cbv zeta.
  assert (Z0 : is_decimal (ch "0") = true) by now rewrite is_decimal_ascii.
  destruct (@part_head h "h"%string Hh) as [-> | (x & a & -> & Hx)].
  2:{ cbn [app]. edestruct join_head as [t Et]. rewrite Et. eauto. }
  destruct (@part_head m "m"%string Hm) as [-> | (x & a & -> & Hx)].
  2:{ cbn [app]. edestruct join_head as [t Et]. rewrite Et. eauto. }
  destruct (@part_head s "s"%string Hs) as [-> | (x & a & -> & Hx)].
  2:{ cbn [app join]. eauto. }
  cbn [app]. exists (ch "0"), (u "s"). auto.
Qed.

Lemma format_duration_unknown d :
  format_duration d = u "Unknown" <-> is_prefix (u "PT") d = false.
Proof.
  rewrite format_duration_scan. split.
  - destruct (is_prefix (u "PT") d) eqn:P; [|reflexivity]. intros E.
    destruct (scan_duration_prefix d P) as (h & m & s & Hd).
    rewrite Hd in E. apply scan_duration_ok in Hd as (Hh & Hm & Hs).
    destruct (render_head h m s Hh Hm Hs) as (x & t & Er & Hx).
    rewrite Er in E. injection E as -> _.
    rewrite is_decimal_ascii in Hx by reflexivity. discriminate.
  - intros P. unfold scan_duration. now rewrite P.
Qed.

Lemma unit_split_ahead (c : ascii) rest :
  c = "H"%char \/ c = "M"%char \/ c = "S"%char ->
  ~ component_ahead rest -> unit_split is_decimal (ch c) rest = None.
Proof.
  intros Hc Hn.
  destruct (unit_split is_decimal (ch c) rest) as [[ds t]|] eqn:E;
    [|reflexivity].
  exfalso. apply Hn. apply unit_split_some in E as (-> & Hd & F).
  exists ds, (ch c), t. repeat split; try assumption.
  destruct Hc as [-> | [-> | ->]]; auto.
Qed.

Lemma scan_no_component rest :
  ~ component_ahead rest ->
  scan_duration (u "PT" ++ rest) = Some (None, None, None).
Proof.
  intros Hn. unfold scan_duration. rewrite is_prefix_app.
  change (skipn 2 (u "PT" ++ rest)) with rest. unfold scan_unit.
  now rewrite !unit_split_ahead by auto.
Qed.

End DurationAny.

(** ** The claims on format_duration *)

Lemma digits_ok_ascii {U : Unicode} ds :
  ds <> [] -> forallb ascii_digit ds = true -> digits_ok (Some ds) = true.
Proof.
  intros Hn F. cbn [digits_ok]. apply andb_true_iff. split.
  - now destruct ds.
  - clear Hn. induction ds as [|d ds IH]; [reflexivity|].
    cbn [forallb] in *. apply andb_true_iff in F as [Hd F].
    rewrite IH by assumption. rewrite is_decimal_ascii, Hd; [reflexivity|].
    revert Hd. codes. cmp.
Qed.

Lemma part_shown {U : Unicode} v unit :
  digits_ok v = true -> part v unit = shown v unit.
Proof.
  destruct v as [[|x ds]|]; cbn [digits_ok part shown]; try reflexivity.
  discriminate.
Qed.

Lemma not_component_ahead {U : Unicode} x t :
  is_ascii x = true -> ascii_digit x = false -> ~ component_ahead (x :: t).
Proof.
  intros Ha Hd (ds & c & r & E & Hn & F & _).
  destruct ds as [|d ds]; [congruence|]. injection E as <- _.
  cbn [forallb] in F. apply andb_true_iff in F as [F _].
  rewrite is_decimal_ascii in F by assumption. congruence.
Qed.

Lemma not_component_ahead_nil {U : Unicode} : ~ component_ahead [].
Proof.
  intros (ds & c & r & E & _). destruct ds; discriminate.
Qed.

(** C2 (amended).  [format_duration] sends PT1H23M45S to 1h 23m 45s,
    PT0S to 0s and the empty string to Unknown.  It never fails, and
    its result is Unknown exactly when the input does not start with
    PT.  On a token PT<h>H<m>M<s>S, each component a non-empty digit
    run or absent, the result lists the components present, hours
    then minutes then seconds, each with its unit letter, separated
    by single spaces; the token PT with no component gives 0s. *)
Theorem format_duration_tokens (U : Unicode) :
  format_duration (u "PT1H23M45S") = u "1h 23m 45s"
  /\ format_duration (u "PT0S") = u "0s"
  /\ format_duration (u "") = u "Unknown"
  /\ (forall d,
        format_duration d = u "Unknown" <-> is_prefix (u "PT") d = false)
  /\ (forall h m s,
        digits_ok h = true -> digits_ok m = true -> digits_ok s = true ->
        format_duration (token h m s)
        = match shown h "h" ++ shown m "m" ++ shown s "s" with
          | [] => u "0s"
          | parts => join (u " ") parts
          end)
  /\ format_duration (u "PT") = u "0s".
Proof.
  assert (T : forall h m s,
             digits_ok h = true -> digits_ok m = true -> digits_ok s = true ->
             format_duration (token h m s)
             = match shown h "h" ++ shown m "m" ++ shown s "s" with
               | [] => u "0s"
               | parts => join (u " ") parts
               end).
  { intros h m s Hh Hm Hs. rewrite format_duration_token by assumption.
    unfold render. cbv zeta. rewrite !part_shown by assumption.
    now destruct (shown h "h" ++ shown m "m" ++ shown s "s"). }
  refine (conj _ (conj _ (conj _ (conj _ (conj T _))))).
  - change (u "PT1H23M45S")
      with (token (Some (u "1")) (Some (u "23")) (Some (u "45"))).
    rewrite T by (apply digits_ok_ascii; [discriminate | reflexivity]).
    reflexivity.
  - change (u "PT0S") with (token None None (Some (u "0"))).
    rewrite T by first [ reflexivity
                       | apply digits_ok_ascii; [discriminate | reflexivity] ].
    reflexivity.
  - now apply format_duration_unknown.
  - apply format_duration_unknown.
  - change (u "PT") with (token None None None). now rewrite T.
Qed.

Lemma format_duration_tokens_witness :
  format_duration (U := ascii_tables) (token (Some (u "2")) None (Some (u "30")))
  = u "2h 30s".
Proof.
  destruct (format_duration_tokens ascii_tables) as (_ & _ & _ & _ & H & _).
  rewrite H by reflexivity. reflexivity.
Defined.

(** C2 as stated fails twice.  PT0H0M0S is a token whose components
    are all zero, and its result is 0h 0m 0s, not 0s.  PTabc is not a
    duration token, and its result is 0s, not Unknown. *)
Lemma format_duration_zero_components :
  (is_token (U := ascii_tables) (u "PT0H0M0S")
   /\ format_duration (U := ascii_tables) (u "PT0H0M0S") = u "0h 0m 0s"
   /\ u "0h 0m 0s" <> u "0s")
  /\ (~ is_token (U := ascii_tables) (u "PTabc")
      /\ format_duration (U := ascii_tables) (u "PTabc") = u "0s"
      /\ u "0s" <> u "Unknown").
Proof.
  repeat split; try discriminate.
  - exists (Some (u "0")), (Some (u "0")), (Some (u "0")).
    repeat split.
  - intros (h & m & s & Hh & Hm & Hs & E). unfold token in E.
    change (u "PTabc") with (u "PT" ++ u "abc") in E.
    apply app_inv_head in E.
    destruct h as [[|x h]|]; try discriminate Hh.
    { injection E as <- _. discriminate Hh. }
    destruct m as [[|x m]|]; try discriminate Hm.
    { injection E as <- _. discriminate Hm. }
    destruct s as [[|x s]|]; try discriminate Hs.
    { injection E as <- _. discriminate Hs. }
    discriminate E.
Qed.

(** C9.  When the text after PT does not begin with a non-empty digit
    run followed by H, M or S, [format_duration] returns 0s and not
    Unknown; PT and PTabc are such inputs. *)
Theorem format_duration_no_component (U : Unicode) :
  (forall rest,
      ~ component_ahead rest ->
      format_duration (u "PT" ++ rest) = u "0s"
      /\ format_duration (u "PT" ++ rest) <> u "Unknown")
  /\ format_duration (u "PT") = u "0s"
  /\ format_duration (u "PTabc") = u "0s".
Proof.
  assert (T : forall rest, ~ component_ahead rest ->
                           format_duration (u "PT" ++ rest) = u "0s").
  { intros rest Hn. now rewrite format_duration_scan, scan_no_component. }
  refine (conj _ (conj _ _)).
  - intros rest Hn. rewrite T by assumption. split; [reflexivity | discriminate].
  - change (u "PT") with (u "PT" ++ []). apply T, not_component_ahead_nil.
  - change (u "PTabc") with (u "PT" ++ u "abc").
    apply T. now apply not_component_ahead.
Qed.

Lemma format_duration_no_component_witness :
  format_duration (U := ascii_tables) (u "PT" ++ u "abc5S") = u "0s"
  /\ format_duration (U := ascii_tables) (u "PT" ++ u "abc5S") <> u "Unknown".
Proof.
  apply (proj1 (format_duration_no_component ascii_tables)).
  now apply not_component_ahead.
Defined.

(** ** The claims on extract_video_id *)

(** C3.  When the text holds an occurrence of any of the three shapes,
    [extract_video_id] returns an identifier of exactly eleven
    characters of the class 0-9A-Za-z_-: the one of the first
    occurrence, from the left, of the first family in the order of
    [patterns] that occurs at all (a later family is consulted only
    when every earlier one is absent).  When none of the shapes occurs
    the result is [None]. *)
Theorem extract_video_id_shapes url :
  ((exists f, present f url) ->
   exists id f,
     extract_video_id url = Some id
     /\ length id = 11 /\ forallb id_char id = true
     /\ leftmost f id url
     /\ forall f', rank f' < rank f -> ~ present f' url)
  /\ (forall f id,
         leftmost f id url ->
         (forall f', rank f' < rank f -> ~ present f' url) ->
         extract_video_id url = Some id)
  /\ ((forall f, ~ present f url) -> extract_video_id url = None).
Proof.
  refine (conj _ (conj _ _)).
  - intros [f H].
    destruct (extract_video_id_present H) as (id & E & Hl & Hn & Hc).
    exists id, watch_or_path. repeat split; try assumption.
    intros f' Hr. cbn [rank] in Hr. lia.
  - intros f id. apply extract_video_id_priority.
  - apply extract_video_id_absent.
Qed.

Lemma extract_video_id_shapes_witness :
  extract_video_id (u "https://youtube.com/watch?v=dQw4w9WgXcQ")
  = Some (u "dQw4w9WgXcQ")
  /\ extract_video_id (u "send me a link") = None.
Proof.
  split.
  - apply (proj1 (proj2 (extract_video_id_shapes _)) watch_or_path).
    + apply find_first_leftmost. reflexivity.
    + cbn [rank]. lia.
  - apply (proj2 (proj2 (extract_video_id_shapes _))).
    intros f. apply find_first_absent. destruct f; reflexivity.
Defined.

(** C10.  A slash followed by eleven identifier characters anywhere in
    the text is enough: [extract_video_id] then returns some
    identifier of eleven such characters, never [None], whether or
    not the text has one of the documented URL forms. *)
Theorem extract_video_id_slash_run pre id post :
  length id = 11 -> forallb id_char id = true ->
  exists r,
    extract_video_id (pre ++ u "/" ++ id ++ post) = Some r
    /\ length r = 11 /\ forallb id_char r = true.
Proof.
  intros Hn Hc.
  assert (H : present watch_or_path (pre ++ u "/" ++ id ++ post)).
  { exists id, pre. right. exists post. auto. }
  destruct (extract_video_id_present H) as (r & E & _ & Hr).
  exists r. auto.
Qed.

Lemma extract_video_id_slash_run_witness :
  exists r,
    extract_video_id
      (u "https://example.com" ++ u "/" ++ u "abcdefghijk" ++ u "/page")
    = Some r
    /\ length r = 11 /\ forallb id_char r = true.
Proof.
  apply extract_video_id_slash_run; reflexivity.
Defined.

(** ** The labelled fields of the assessment *)

Lemma re_search_hits r (hit : str -> option str) :
  (forall s, re_match r s = option_map hit_caps (hit s)) ->
  forall s, re_search r s = option_map hit_caps (find_first hit s).
Proof.
  intros H s. induction s as [|x s IH]; cbn [re_search find_first];
    rewrite H; destruct (hit _); try reflexivity.
  exact IH.
Qed.

Section Fields.

Context {U : Unicode}.

Lemma re_match_label label s :
  re_match (label_re label) s = option_map hit_caps (label_at label s).
Proof.
  unfold re_match, label_re, label_at, Plus. cbn [rmatch]. rewrite rmatch_Str.
  destruct (is_prefix (u label) s); [|reflexivity].
  set (t := skipn (length (u label)) s).
  match goal with
  | |- star_loop _ ?k' _ _ _ = _ =>
    transitivity (k' (drop_while is_space t) no_caps);
      [apply (@star_class _ is_space k' no_caps); [|lia] |]
  end.
  - intros x r Hx _. cbn beta. now rewrite (space_not_word x Hx).
  - cbn beta. destruct (drop_while is_space t) as [|w r]; [reflexivity|].
    destruct (is_word w); [|reflexivity].
    match goal with
    | |- star_loop _ ?k' _ _ _ = _ =>
      transitivity (k' (drop_while is_word r) no_caps);
        [apply (@star_class _ is_word k' no_caps); [|lia] |]
    end.
    + intros x r' _ E. discriminate E.
    + cbn beta. cbn [option_map]. unfold hit_caps. do 2 f_equal.
      pose proof (firstn_drop_while is_word r) as Hf.
      pose proof (drop_while_length is_word r) as Hl.
      cbn [length].
      replace (S (length r) - length (drop_while is_word r))
        with (S (length r - length (drop_while is_word r))) by lia.
      cbn [firstn]. now rewrite Hf.
Qed.

Lemma level_of_search label s :
  level_of (re_search (label_re label) s)
  = match find_first (label_at label) s with
    | Some w => w
    | None => u "Unknown"
    end.
Proof.
  rewrite (@re_search_hits _ (label_at label) (re_match_label label)).
  now destruct (find_first (label_at label) s).
Qed.

Lemma label_at_some label s v :
  label_at label s = Some v ->
  exists ws w post,
    s = u label ++ ws ++ w :: post
    /\ forallb is_space ws = true /\ is_word w = true.
Proof.
  unfold label_at. destruct (is_prefix (u label) s) eqn:P; [|discriminate].
  apply is_prefix_spec in P as [t ->].
  rewrite skipn_app, Nat.sub_diag, skipn_all. cbn [skipn app].
  pose proof (take_drop_while is_space t) as E.
  destruct (drop_while is_space t) as [|w r]; [discriminate|].
  destruct (is_word w) eqn:Hw; [|discriminate]. intros _.
  exists (take_while is_space t), w, r. rewrite E.
  repeat split; [apply take_while_all | exact Hw].
Qed.

Lemma label_at_present label ws w post :
  forallb is_space ws = true -> is_word w = true ->
  label_at label (u label ++ ws ++ w :: post) <> None.
Proof.
  intros F Hw. unfold label_at. rewrite is_prefix_app.
  rewrite skipn_app, Nat.sub_diag, skipn_all. cbn [skipn app].
  assert (Hs : is_space w = false).
  { destruct (is_space w) eqn:E; [|reflexivity].
    apply space_not_word in E. congruence. }
  rewrite drop_while_app by assumption. now rewrite Hw.
Qed.

Lemma field_present_search label text :
  field_present label text <-> find_first (label_at label) text <> None.
Proof.
  split.
  - intros (pre & ws & w & post & -> & F & Hw) E.
    rewrite find_first_none in E.
    now apply (label_at_present label ws w post F Hw), (E pre).
  - intros H. destruct (find_first (label_at label) text) as [v|] eqn:E;
      [|congruence].
    apply find_first_some in E as (pre & post & -> & E & _).
    apply label_at_some in E as (ws & w & r & -> & F & Hw).
    now exists pre, ws, w, r.
Qed.

Lemma lower_unknown : str_lower (u "Unknown") = u "unknown".
Proof. now rewrite str_lower_ascii. Qed.

End Fields.

(** ** Random choices *)

Lemma choice_In l w : l <> [] -> In (fst (choice l w)) l.
Proof.
  intros Hl. unfold choice, bind, draw, ret. cbn [fst].
  apply nth_In. apply Nat.mod_upper_bound. now destruct l.
Qed.

Lemma choice_world l w :
  snd (choice l w)
  = {| draws := draws w; next := S (next w); log := log w |}.
Proof. reflexivity. Qed.

Lemma reactions_nonempty c : reactions c <> [].
Proof. now destruct c. Qed.

(** ** The claims on the classifier *)

(** On ASCII text, looking for a lower-case needle in the lowered text
    is looking for the needle in the text up to the case of letters. *)
Lemma contains_lower_ascii {U : Unicode} needle text :
  forallb is_ascii text = true ->
  (contains needle (str_lower text) = true <->
   exists pre mid post,
     text = pre ++ mid ++ post /\ map ascii_lower mid = needle).
Proof.
  intros Ha. rewrite str_lower_ascii by assumption. rewrite contains_spec.
  split.
  - intros (pre & post & E).
    apply map_eq_app in E as (pre' & r & -> & _ & E).
    apply map_eq_app in E as (mid & post' & -> & E & _).
    now exists pre', mid, post'.
  - intros (pre & mid & post & -> & <-).
    exists (map ascii_lower pre), (map ascii_lower post).
    now rewrite !map_app.
Qed.

(** C1.  The category is decided by three rules tried in order, the
    first that applies winning: low bias with factual content gives
    low_factual; otherwise high bias or questionable content gives
    high_questionable; otherwise moderate_mixed.  Each test looks for
    the word in the lowered text, which on ASCII text is a search up
    to the case of letters.  A bias text with high and without low is
    high_questionable whatever the factuality.  The reaction returned
    is one of the three lines of the category. *)
Theorem get_detective_reaction_rules (U : Unicode) bias_level factuality :
  let low := contains (u "low") (str_lower bias_level) in
  let factual := contains (u "factual") (str_lower factuality) in
  let high := contains (u "high") (str_lower bias_level) in
  let questionable := contains (u "questionable") (str_lower factuality) in
  (low = true /\ factual = true ->
   reaction_category bias_level factuality = low_factual)
  /\ (~ (low = true /\ factual = true) ->
      high = true \/ questionable = true ->
      reaction_category bias_level factuality = high_questionable)
  /\ (~ (low = true /\ factual = true) ->
      high = false -> questionable = false ->
      reaction_category bias_level factuality = moderate_mixed)
  /\ (high = true -> low = false ->
      forall any, reaction_category bias_level any = high_questionable)
  /\ (forall needle text,
         forallb is_ascii text = true ->
         (contains needle (str_lower text) = true <->
          exists pre mid post,
            text = pre ++ mid ++ post /\ map ascii_lower mid = needle))
  /\ (forall w,
         In (fst (get_detective_reaction bias_level factuality w))
            (reactions (reaction_category bias_level factuality))).
Proof.
  cbv zeta. unfold reaction_category.
  refine (conj _ (conj _ (conj _ (conj _ (conj _ _))))).
  - intros [-> ->]. reflexivity.
  - intros Hn Hh.
    destruct (contains (u "low") (str_lower bias_level)),
             (contains (u "factual") (str_lower factuality));
      cbn [andb]; try (exfalso; now apply Hn);
      destruct Hh as [-> | ->]; cbn [orb]; try reflexivity;
      now rewrite orb_true_r.
  - intros Hn -> ->.
    destruct (contains (u "low") (str_lower bias_level)),
             (contains (u "factual") (str_lower factuality));
      cbn [andb orb]; try reflexivity; exfalso; now apply Hn.
  - intros -> -> any. reflexivity.
  - intros needle text. apply contains_lower_ascii.
  - intros w. apply choice_In, reactions_nonempty.
Qed.

Lemma get_detective_reaction_rules_witness :
  reaction_category (U := ascii_tables) (u "HIGH") (u "Factual")
  = high_questionable
  /\ reaction_category (U := ascii_tables) (u "Low") (u "FACTUAL")
     = low_factual.
Proof.
  split.
  - destruct (get_detective_reaction_rules ascii_tables (u "HIGH") (u "x"))
      as (_ & _ & _ & H & _).
    apply H; reflexivity.
  - destruct (get_detective_reaction_rules ascii_tables (u "Low") (u "FACTUAL"))
      as (H & _).
    apply H. split; reflexivity.
Defined.

(** C5.  When the assessment has no Bias: label followed by optional
    white space and a word character, the bias level is the sentinel
    Unknown, and likewise for Factuality:.  The lowered sentinel holds
    none of low, high, factual, questionable, so an assessment with
    neither field is classified moderate_mixed. *)
Theorem missing_fields_moderate (U : Unicode) analysis :
  let bias_level := level_of (re_search (label_re "Bias:") analysis) in
  let factuality := level_of (re_search (label_re "Factuality:") analysis) in
  (~ field_present "Bias:" analysis -> bias_level = u "Unknown")
  /\ (~ field_present "Factuality:" analysis -> factuality = u "Unknown")
  /\ (contains (u "low") (str_lower (u "Unknown")) = false
      /\ contains (u "high") (str_lower (u "Unknown")) = false
      /\ contains (u "factual") (str_lower (u "Unknown")) = false
      /\ contains (u "questionable") (str_lower (u "Unknown")) = false)
  /\ (~ field_present "Bias:" analysis ->
      ~ field_present "Factuality:" analysis ->
      reaction_category bias_level factuality = moderate_mixed).
Proof.
  cbv zeta.
  assert (A : forall label, ~ field_present label analysis ->
                            level_of (re_search (label_re label) analysis)
                            = u "Unknown").
  { intros label Hn. rewrite level_of_search.
    destruct (find_first (label_at label) analysis) eqn:E; [|reflexivity].
    exfalso. apply Hn, field_present_search. congruence. }
  refine (conj (A _) (conj (A _) (conj _ _))).
  - rewrite lower_unknown. now repeat split.
  - intros Hb Hf. rewrite !A by assumption.
    unfold reaction_category. now rewrite lower_unknown.
Qed.

Lemma missing_fields_moderate_witness :
  reaction_category (U := ascii_tables)
    (level_of (re_search (label_re "Bias:") (u "Key Points: none given")))
    (level_of (re_search (label_re "Factuality:") (u "Key Points: none given")))
  = moderate_mixed.
Proof.
  apply (proj2 (proj2 (proj2
    (missing_fields_moderate ascii_tables (u "Key Points: none given")))));
    intros H; apply field_present_search in H; now apply H.
Defined.

(** ** format_views: the quotient and its tenths *)

Local Open Scope Z_scope.

Lemma round_half_even_spec p q :
  0 < q -> - q <= 2 * (p - round_half_even p q * q) <= q.
Proof.
  intros Hq. unfold round_half_even.
  pose proof (Z.div_mod p q ltac:(lia)) as E.
  pose proof (Z.mod_pos_bound p q Hq) as B.
  destruct (Z.ltb_spec (2 * (p mod q)) q);
    [|destruct (Z.ltb_spec q (2 * (p mod q))); [|destruct (Z.even (p / q))]];
    lia.
Qed.

Lemma round_half_even_nonneg p q :
  0 <= p -> 0 < q -> 0 <= round_half_even p q.
Proof.
  intros Hp Hq. unfold round_half_even.
  pose proof (Z.div_pos p q Hp Hq).
  destruct (_ <? _); [|destruct (_ <? _); [|destruct (Z.even _)]]; lia.
Qed.

(** Two roundings in a row, to a binary fraction with denominator [P]
    and then to tenths, still land on a nearest tenth of [a / b] when
    [P] exceeds half of [b] and [b] is a multiple of 20. *)
Lemma nearest_tenth a c P m n :
  0 < c -> 20 * c < 2 * P ->
  - (20 * c) <= 2 * (a * P - m * (20 * c)) <= 20 * c ->
  - P <= 2 * (10 * m - n * P) <= P ->
  - (20 * c) <= 2 * (10 * a - n * (20 * c)) <= 20 * c.
Proof.
  intros Hc HP Hm Hn.
  set (k := a - 2 * n * c).
  assert (E : 2 * (10 * k) * P
              = 10 * (2 * (a * P - m * (20 * c)))
                + 20 * c * (2 * (10 * m - n * P))) by (unfold k; ring).
  assert (Hc' : 0 <= 20 * c * P) by nia.
  assert (U1 : 20 * (k * P) <= 20 * (c * P) + 200 * c) by nia.
  assert (L1 : - (20 * (c * P) + 200 * c) <= 20 * (k * P)) by nia.
  assert (K : - c <= k <= c).
  { split.
    - destruct (Z.le_gt_cases (- c) k) as [|Hk]; [assumption|]. exfalso.
      assert (k * P <= (- c - 1) * P) by nia. nia.
    - destruct (Z.le_gt_cases k c) as [|Hk]; [assumption|]. exfalso.
      assert ((c + 1) * P <= k * P) by nia. nia. }
  unfold k in K. lia.
Qed.

Lemma log2_quotient a b k :
  0 < b -> b <= a -> a < 2 ^ k * b -> 0 < k ->
  0 <= Z.log2 (a / b) < k.
Proof.
  intros Hb Hab Hk Hk0. split; [apply Z.log2_nonneg|].
  assert (1 <= a / b) by (apply Z.div_le_lower_bound; lia).
  apply Z.log2_lt_pow2; [lia|].
  apply Z.div_lt_upper_bound; lia.
Qed.

(** The quotient by [b = 20 c] and its tenths, below [2 ^ k * b]. *)
Lemma true_divide_tenths a c k :
  0 < c -> 20 * c <= a -> a < 2 ^ k * (20 * c) -> 0 < k < 52 ->
  20 * c < 2 * 2 ^ (52 - k + 1) ->
  exists q,
    true_divide a (20 * c) = Ok q
    /\ 0 <= tenths q
    /\ - (20 * c) <= 2 * (10 * a - tenths q * (20 * c)) <= 20 * c.
Proof.
  intros Hc Hab Hk Hk0 HP.
  pose proof (@log2_quotient a (20 * c) k ltac:(lia) Hab Hk ltac:(lia)) as He.
  unfold true_divide. set (e := Z.log2 (a / (20 * c))) in *.
  destruct (Z.leb_spec e 52) as [_|]; [|lia].
  destruct (Z.leb_spec 1024 e) as [|_]; [lia|].
  destruct (Z.eqb_spec e 1023) as [|_]; [lia|]. cbn [orb andb].
  eexists. split; [reflexivity|].
  unfold tenths. cbn [mant expo].
  destruct (Z.leb_spec 0 (e - 52)) as [|_]; [lia|].
  replace (- (e - 52)) with (52 - e) by lia.
  set (P := 2 ^ (52 - e)).
  assert (HP' : 2 ^ (52 - k + 1) <= P)
    by (apply Z.pow_le_mono_r; lia).
  assert (P0 : 0 < P) by (apply Z.pow_pos_nonneg; lia).
  set (m := round_half_even (a * P) (20 * c)).
  assert (Hm0 : 0 <= m) by (apply round_half_even_nonneg; nia).
  split; [apply round_half_even_nonneg; lia|].
  apply (@nearest_tenth a c P m); try lia.
  - apply round_half_even_spec. lia.
  - apply round_half_even_spec. lia.
Qed.

Lemma one_digit d : 0 <= d < 10 -> length (str_of_Z d) = 1%nat.
Proof.
  intros H.
  assert (C : d = 0 \/ d = 1 \/ d = 2 \/ d = 3 \/ d = 4 \/ d = 5 \/ d = 6
              \/ d = 7 \/ d = 8 \/ d = 9) by lia.
  repeat (destruct C as [-> | C]; [reflexivity|]). now subst.
Qed.

Lemma format_views_int {U : Unicode} count :
  format_views (CInt count)
  = if 1000000 <=? count then
      try_bind (true_divide count 1000000) (fun q => Ok (format_1f q ++ u "M"))
    else if 1000 <=? count then
      try_bind (true_divide count 1000) (fun q => Ok (format_1f q ++ u "K"))
    else Ok (str_of_Z count).
Proof. reflexivity. Qed.

Lemma branch_tenths a c k (suffix : string) :
  0 < c -> 20 * c <= a -> a < 2 ^ k * (20 * c) -> 0 < k < 52 ->
  20 * c < 2 * 2 ^ (52 - k + 1) ->
  tenths_of a (20 * c) suffix
    (try_bind (true_divide a (20 * c))
              (fun q => Ok (format_1f q ++ u suffix))).
Proof.
  intros Hc Hab Hk Hk0 HP.
  destruct (true_divide_tenths Hc Hab Hk Hk0 HP) as (q & -> & Hn & Hacc).
  cbn [try_bind]. exists (tenths q). unfold format_1f, show_tenths.
  rewrite <- !app_assoc. repeat split; try assumption; try lia.
  apply one_digit. apply Z.mod_pos_bound. lia.
Qed.

(** ** The claim on format_views *)

(** C4 (amended).  For every non-negative integer count below
    2^34 * 10^6: from 10^6 on [format_views] returns a number of tenths
    nearest to count / 10^6, printed with exactly one decimal digit and
    the suffix M; from 1000 to below 10^6 a number of tenths nearest to
    count / 1000, one decimal digit and the suffix K; below 1000 the
    decimal numeral of count.  It sends 1500000 to 1.5M, 5000 to 5.0K,
    500 to 500, 1000 to 1.0K, 1000000 to 1.0M and 0 to 0. *)
Theorem format_views_tenths (U : Unicode) :
  (forall count,
      0 <= count < 2 ^ 34 * 1000000 ->
      (1000000 <= count ->
       tenths_of count 1000000 "M" (format_views (CInt count)))
      /\ (1000 <= count < 1000000 ->
          tenths_of count 1000 "K" (format_views (CInt count)))
      /\ (count < 1000 -> format_views (CInt count) = Ok (str_of_Z count)))
  /\ format_views (CInt 1500000) = Ok (u "1.5M")
  /\ format_views (CInt 5000) = Ok (u "5.0K")
  /\ format_views (CInt 500) = Ok (u "500")
  /\ format_views (CInt 1000) = Ok (u "1.0K")
  /\ format_views (CInt 1000000) = Ok (u "1.0M")
  /\ format_views (CInt 0) = Ok (u "0").
Proof.
  split; [|repeat split; vm_compute; reflexivity].
  intros count Hc. rewrite format_views_int.
  refine (conj _ (conj _ _)).
  - intros H. destruct (Z.leb_spec 1000000 count); [|lia].
    apply (@branch_tenths count 50000 34); lia.
  - intros H. destruct (Z.leb_spec 1000000 count); [lia|].
    destruct (Z.leb_spec 1000 count); [|lia].
    apply (@branch_tenths count 50 10); lia.
  - intros H. destruct (Z.leb_spec 1000000 count); [lia|].
    destruct (Z.leb_spec 1000 count); [lia|]. reflexivity.
Qed.

Lemma format_views_tenths_witness :
  tenths_of 1234567 1000000 "M"
    (format_views (U := ascii_tables) (CInt 1234567)).
Proof.
  apply (proj1 (format_views_tenths ascii_tables) 1234567); lia.
Defined.

(** C4 as stated fails for a count whose quotient is beyond the range
    of a float: the division raises and no string is returned. *)
Lemma format_views_overflow :
  format_views (U := ascii_tables) (CInt (1000000 * 2 ^ 1024))
  = Raise (Exception (u "integer division result too large for a float")).
Proof. vm_compute. reflexivity. Qed.

(** Just above the bound of C4 the float quotient already leaves the
    nearest tenth: 17179869184.050001 is printed as 17179869184.0. *)
Lemma format_views_far_tenth :
  format_views (U := ascii_tables) (CInt 17179869184050001)
  = Ok (u "17179869184.0M").
Proof. vm_compute. reflexivity. Qed.

(** ** The trace of a request *)

Local Close Scope Z_scope.

Lemma extract_video_id_some url id :
  extract_video_id url = Some id ->
  length id = 11 /\ forallb id_char id = true.
Proof.
  rewrite extract_video_id_search. intros H.
  assert (L : exists f, leftmost f id url).
  { destruct (find_first (hit_of watch_or_path) url) eqn:E1.
    - exists watch_or_path. apply find_first_leftmost. congruence.
    - destruct (find_first (hit_of embed) url) eqn:E2.
      + exists embed. apply find_first_leftmost. congruence.
      + exists short_host. now apply find_first_leftmost. }
  destruct L as (f & pre & Hs & _). now apply shape_id in Hs.
Qed.

Section Trace.

Context {U : Unicode}.
Variable youtube : str -> str -> result response_t.
Variable model : str -> result str.

Lemma analyse_log video_id d w :
  log (snd (analyse model video_id d w))
  = log w ++ analyse_events model (draws w (next w)) (draws w (S (next w)))
                            video_id d.
Proof.
  cbv beta iota zeta
      delta [analyse analyse_events generate_content bind emit ret
             get_detective_reaction choice draw randint
             fst snd log draws next].
  destruct (model _) as [text|e];
    cbv beta iota zeta delta [fst snd log draws next bind emit ret];
    rewrite <- app_assoc; reflexivity.
Qed.

Lemma summarize_youtube_log url w :
  log (snd (summarize_youtube youtube model url w))
  = log w ++ summarize_events youtube model (fun i => draws w (i + next w)) url.
Proof.
  cbv beta iota zeta
      delta [summarize_youtube summarize_events videos_list choice draw
             bind emit ret facets].
  cbn [fst snd log draws next Nat.add].
  destruct (extract_video_id url) as [[|c video_id]|];
    cbn [fst snd log draws next];
    try (rewrite <- app_assoc; reflexivity).
  destruct (try_bind (youtube _ (c :: video_id)) read_details)
    as [[d|]|e]; cbn [fst snd log draws next];
    rewrite <- ?app_assoc; try reflexivity.
  rewrite analyse_log. cbn [log draws next].
  rewrite <- !app_assoc. reflexivity.
Qed.

Lemma handle_message_link m url w :
  contains (u "youtube.com") url || contains (u "youtu.be") url = true ->
  handle_message youtube model
    {| message := m; effective_message := {| text := Some url |} |} w
  = (Ok tt, snd (summarize_youtube youtube model url w)).
Proof.
  intros H. destruct url as [|c url]; [discriminate H|].
  unfold handle_message. cbn [text effective_message]. rewrite H.
  unfold bind, ret. destruct (summarize_youtube _ _ _ _). reflexivity.
Qed.

Lemma handle_message_other m s w :
  contains (u "youtube.com") s || contains (u "youtu.be") s = false ->
  handle_message youtube model
    {| message := m; effective_message := {| text := Some s |} |} w
  = reply_not_a_link
      {| message := m; effective_message := {| text := Some s |} |} w.
Proof.
  intros H. unfold handle_message. cbn [text effective_message].
  destruct s as [|c s]; [reflexivity|]. rewrite H. reflexivity.
Qed.

Lemma reply_not_a_link_sent m0 e w :
  reply_not_a_link {| message := Some m0; effective_message := e |} w
  = (Ok tt,
     {| draws := draws w; next := S (next w);
        log := log w ++ [ReplyText (nth (draws w (next w) mod length not_a_link)
                                        not_a_link [])] |}).
Proof. reflexivity. Qed.

Lemma reply_not_a_link_raises e w :
  reply_not_a_link {| message := None; effective_message := e |} w
  = (Raise (Exception (u "'NoneType' object has no attribute 'reply_text'")),
     w).
Proof. reflexivity. Qed.

End Trace.

(** ** The claims on the handlers *)

Lemma loading_not_reaction x : In x loading_messages -> ~ In x not_a_link.
Proof.
  intros H1 H2. cbn [In loading_messages not_a_link] in H1, H2.
  destruct H1 as [<- | [<- | [<- | [<- | []]]]];
    destruct H2 as [H | [H | [H | []]]]; discriminate H.
Qed.

Lemma loading_In n : In (nth (n mod length loading_messages) loading_messages [])
                        loading_messages.
Proof. apply nth_In, Nat.mod_upper_bound. discriminate. Qed.

Lemma not_a_link_In n : In (nth (n mod length not_a_link) not_a_link [])
                           not_a_link.
Proof. apply nth_In, Nat.mod_upper_bound. discriminate. Qed.

Lemma summarize_events_head {U : Unicode} youtube model r url :
  exists loading rest,
    In loading loading_messages
    /\ summarize_events youtube model r url = ReplyText loading :: rest.
Proof.
  unfold summarize_events. eexists _, _. split; [apply loading_In|].
  reflexivity.
Qed.

(** C6.  When the link yields an identifier and the catalog answers
    with no item, the handler sends the placeholder, asks the catalog
    once, replaces the placeholder by the message that starts with the
    Video Not Found marker, and stops: the generative service is not
    called and nothing follows. *)
Theorem video_not_found_stops (U : Unicode) youtube model url video_id info w :
  extract_video_id url = Some video_id ->
  youtube facets video_id = Ok info ->
  items info = None \/ items info = Some [] ->
  exists loading events,
    In loading loading_messages
    /\ log (snd (summarize_youtube youtube model url w)) = log w ++ events
    /\ events = [ ReplyText loading;
                  VideosList facets video_id;
                  EditText video_not_found false ]
    /\ is_prefix (u "❌ *Video Not Found:*") video_not_found = true
    /\ forall e, In e events -> forall prompt, e <> GenerateContent prompt.
Proof.
  intros Hid Hy Hi. rewrite summarize_youtube_log.
  exists (nth (draws w (0 + next w) mod length loading_messages)
              loading_messages []).
  eexists. split; [apply loading_In|]. split; [reflexivity|].
  assert (E : summarize_events youtube model
                (fun i => draws w (i + next w)) url
              = [ ReplyText (nth (draws w (0 + next w)
                                  mod length loading_messages)
                                 loading_messages []);
                  VideosList facets video_id;
                  EditText video_not_found false ]).
  { unfold summarize_events. rewrite Hid.
    destruct (extract_video_id_some _ Hid) as [Hl _].
    destruct video_id as [|c v]; [discriminate Hl|].
    rewrite Hy. cbn [try_bind]. unfold read_details.
    destruct Hi as [-> | ->]; reflexivity. }
  rewrite E. split; [reflexivity|]. split; [reflexivity|].
  intros e He prompt. cbn [In] in He.
  destruct He as [<- | [<- | [<- | []]]]; discriminate.
Qed.

Lemma video_not_found_stops_witness :
  exists loading events,
    In loading loading_messages
    /\ log (snd (summarize_youtube (U := ascii_tables)
                   (fun _ _ => Ok {| items := Some [] |})
                   (fun _ => Ok [])
                   (u "https://youtu.be/dQw4w9WgXcQ")
                   {| draws := fun n => n; next := 0; log := [] |}))
       = [] ++ events
    /\ events = [ ReplyText loading;
                  VideosList facets (u "dQw4w9WgXcQ");
                  EditText video_not_found false ]
    /\ is_prefix (u "❌ *Video Not Found:*") video_not_found = true
    /\ forall e, In e events -> forall prompt, e <> GenerateContent prompt.
Proof.
  apply (@video_not_found_stops ascii_tables _ _ _ (u "dQw4w9WgXcQ")
           {| items := Some [] |}
           {| draws := fun n => n; next := 0; log := [] |}).
  - reflexivity.
  - reflexivity.
  - right. reflexivity.
Defined.

(** C8.  An update that carries a text enters the analysis exactly
    when the text holds youtube.com or youtu.be: then the handler is
    the analysis of that text, whatever the kind of the update, and
    the first thing sent is one of the loading lines.  For any other
    text the two kinds of update part.  For a new message the only
    thing sent is one of the three fixed replies, with no call to the
    catalog or to the generative service.  For an edited message or a
    channel post, where [update.message] is [None], the handler raises
    and nothing at all is sent: the text is read from
    [update.effective_message] but the reply goes through
    [update.message]. *)
Theorem handle_message_gate (U : Unicode) youtube model m s w :
  let link := contains (u "youtube.com") s || contains (u "youtu.be") s in
  let run :=
    handle_message youtube model
      {| message := m; effective_message := {| text := Some s |} |} w in
  (link = true -> run = (Ok tt, snd (summarize_youtube youtube model s w)))
  /\ (link = false -> m <> None ->
      exists reaction,
        In reaction not_a_link
        /\ fst run = Ok tt
        /\ log (snd run) = log w ++ [ReplyText reaction])
  /\ (link = false -> m = None ->
      run = (Raise (Exception
                      (u "'NoneType' object has no attribute 'reply_text'")),
             w))
  /\ (link = true <->
      exists loading rest,
        In loading loading_messages
        /\ log (snd run) = log w ++ ReplyText loading :: rest).
Proof.
  cbv zeta.
  destruct (contains (u "youtube.com") s || contains (u "youtu.be") s)
    eqn:L.
  - rewrite (handle_message_link youtube model m s w L).
    refine (conj (fun _ => eq_refl) (conj _ (conj _ _)));
      [discriminate | discriminate |].
    split; [intros _|reflexivity].
    cbn [snd]. rewrite summarize_youtube_log.
    destruct (summarize_events_head youtube model
                (fun i => draws w (i + next w)) s)
      as (loading & rest & Hl & ->).
    exists loading, rest. split; [exact Hl | reflexivity].
  - rewrite (handle_message_other youtube model m s w L).
    refine (conj _ (conj _ (conj _ _))); [discriminate | | |].
    + intros _ Hm. destruct m as [m0|]; [|contradiction Hm; reflexivity].
      rewrite reply_not_a_link_sent. cbn [fst snd log].
      eexists. split; [apply not_a_link_In|]. split; reflexivity.
    + intros _ ->. apply reply_not_a_link_raises.
    + split; [discriminate|].
      intros (loading & rest & Hl & E). exfalso. destruct m as [m0|].
      * rewrite reply_not_a_link_sent in E. cbn [snd log] in E.
        apply app_inv_head in E. injection E as E _.
        apply (loading_not_reaction Hl). rewrite <- E. apply not_a_link_In.
      * rewrite reply_not_a_link_raises in E. cbn [snd] in E.
        rewrite <- (app_nil_r (log w)) in E at 1.
        apply app_inv_head in E. discriminate E.
Qed.

Lemma handle_message_gate_witness :
  handle_message (U := ascii_tables) sample_youtube sample_model
    {| message := None;
       effective_message := {| text := Some (u "hello Jaime") |} |}
    sample_world
  = (Raise (Exception (u "'NoneType' object has no attribute 'reply_text'")),
     sample_world).
Proof.
  refine (proj1 (proj2 (proj2 (@handle_message_gate ascii_tables
            sample_youtube sample_model None (u "hello Jaime")
            sample_world))) _ _).
  - vm_compute. reflexivity.
  - reflexivity.
Defined.






(** * Further properties of the code *)

(** ** extract_video_id *)

Lemma id_at_bad a x t :
  length a < 11 -> id_char x = false -> id_at (a ++ x :: t) = None.
Proof.
  intros Hl Hx. unfold id_at.
  destruct (11 <=? length (a ++ x :: t)); [|reflexivity]. cbn [andb].
  rewrite firstn_app.
  replace (11 - length a) with (S (10 - length a)) by lia.
  cbn [firstn]. rewrite forallb_app. cbn [forallb]. rewrite Hx.
  cbn [andb]. now rewrite andb_false_r.
Qed.

Lemma id_at_outsider r s :
  existsb (fun x => negb (id_char x)) (firstn 11 r) = true ->
  id_at (r ++ s) = None.
Proof.
  intros H. apply existsb_exists in H as (x & Hin & Hx).
  apply negb_true_iff in Hx.
  apply in_split in Hin as (a & b & E).
  assert (Hl : length a < 11).
  { pose proof (length_firstn 11 r) as L. rewrite E, length_app in L.
    cbn [length] in L. lia. }
  rewrite <- (firstn_skipn 11 r), E, <- !app_assoc. cbn [app].
  now apply id_at_bad.
Qed.

Lemma blocked_hit q s :
  q <> [] -> blocked q = true -> hit_of watch_or_path (q ++ s) = None.
Proof.
  destruct q as [|c r]; [congruence|]. intros _ H.
  cbn [blocked] in H. cbn [hit_of]. unfold after_lead.
  change (u "v=") with [ch "v"; ch "="]. change (u "/") with [ch "/"].
  cbn [app is_prefix length skipn].
  destruct (N.eqb_spec c (ch "/")) as [->|Hs].
  - cbn [andb N.eqb]. change (ch "v" =? ch "/")%N with false. cbn [andb].
    rewrite N.eqb_refl. cbn [andb]. now apply id_at_outsider.
  - destruct (N.eqb_spec c (ch "v")) as [->|Hv].
    + rewrite N.eqb_refl. change (ch "/" =? ch "v")%N with false.
      cbn [andb].
      destruct r as [|d r']; [discriminate H|]. cbn [app is_prefix].
      destruct (N.eqb_spec d (ch "=")) as [->|He].
      * rewrite N.eqb_refl. cbn [andb]. rewrite id_at_outsider by assumption.
        reflexivity.
      * rewrite (proj2 (N.eqb_neq (ch "=") d)) by congruence. reflexivity.
    + rewrite (proj2 (N.eqb_neq (ch "v") c)) by congruence.
      rewrite (proj2 (N.eqb_neq (ch "/") c)) by congruence. reflexivity.
Qed.

Lemma find_first_blocked p q s :
  all_blocked p q = true ->
  find_first (hit_of watch_or_path) (p ++ q ++ s)
  = find_first (hit_of watch_or_path) (q ++ s).
Proof.
  induction p as [|c p IH]; [reflexivity|]. intros H.
  cbn [all_blocked] in H. apply andb_true_iff in H as [Hb Hp].
  change ((c :: p) ++ q ++ s) with (c :: (p ++ q ++ s)). cbn [find_first].
  replace (c :: (p ++ q ++ s)) with (((c :: p) ++ q) ++ s)
    by (rewrite <- app_assoc; reflexivity).
  rewrite blocked_hit by (assumption || discriminate). now apply IH.
Qed.

Lemma find_first_here (hit : str -> option str) s i :
  hit s = Some i -> find_first hit s = Some i.
Proof. intros H. destruct s; cbn [find_first]; now rewrite H. Qed.

Lemma extract_after_blocked p (lead : string) id post :
  all_blocked p (u lead) = true ->
  lead = "v="%string \/ lead = "/"%string ->
  length id = 11 -> forallb id_char id = true ->
  extract_video_id (p ++ u lead ++ id ++ post) = Some id.
Proof.
  intros Hp Hlead Hl Hc. rewrite extract_video_id_search.
  rewrite find_first_blocked by assumption.
  rewrite (@find_first_here _ _ id); [reflexivity|].
  apply hit_of_spec. cbn [shape].
  destruct Hlead as [-> | ->]; [left | right]; exists post; auto.
Qed.

(** X1.  Whatever the text, an identifier returned by
    [extract_video_id] has exactly eleven characters, all of the class
    0-9A-Za-z_-. *)
Theorem extract_video_id_wellformed url id :
  extract_video_id url = Some id ->
  length id = 11 /\ forallb id_char id = true.
Proof. apply extract_video_id_some. Qed.

Lemma extract_video_id_wellformed_witness :
  length (u "attribution") = 11
  /\ forallb id_char (u "attribution") = true.
Proof.
  apply (@extract_video_id_wellformed
           (u "https://www.youtube.com/attribution_link?a=1")).
  vm_compute. reflexivity.
Defined.

(** X2.  The three documented link forms give back the identifier they
    were built from, whatever follows it: the watch link (the form of
    the link that the report prints), the short-host link and the
    embed link. *)
Theorem extract_video_id_links id post :
  length id = 11 -> forallb id_char id = true ->
  extract_video_id (u "https://youtube.com/watch?v=" ++ id ++ post) = Some id
  /\ extract_video_id (u "https://youtu.be/" ++ id ++ post) = Some id
  /\ extract_video_id (u "https://www.youtube.com/embed/" ++ id ++ post)
     = Some id.
Proof.
  intros Hl Hc.
  assert (E1 : u "https://youtube.com/watch?v="
               = u "https://youtube.com/watch?" ++ u "v=")
    by (vm_compute; reflexivity).
  assert (E2 : u "https://youtu.be/" = u "https://youtu.be" ++ u "/")
    by (vm_compute; reflexivity).
  assert (E3 : u "https://www.youtube.com/embed/"
               = u "https://www.youtube.com/embed" ++ u "/")
    by (vm_compute; reflexivity).
  rewrite E1, E2, E3, <- !app_assoc.
  refine (conj _ (conj _ _)).
  - apply (@extract_after_blocked (u "https://youtube.com/watch?") "v=");
      [vm_compute; reflexivity | left; reflexivity | assumption..].
  - apply (@extract_after_blocked (u "https://youtu.be") "/");
      [vm_compute; reflexivity | right; reflexivity | assumption..].
  - apply (@extract_after_blocked (u "https://www.youtube.com/embed") "/");
      [vm_compute; reflexivity | right; reflexivity | assumption..].
Qed.

Lemma extract_video_id_links_witness :
  extract_video_id
    (u "https://youtube.com/watch?v=" ++ u "dQw4w9WgXcQ" ++ u "&t=42s")
  = Some (u "dQw4w9WgXcQ").
Proof.
  assert (H1 : length (u "dQw4w9WgXcQ") = 11) by (vm_compute; reflexivity).
  assert (H2 : forallb id_char (u "dQw4w9WgXcQ") = true)
    by (vm_compute; reflexivity).
  exact (proj1 (@extract_video_id_links (u "dQw4w9WgXcQ") (u "&t=42s") H1 H2)).
Defined.

Lemma occurs_contains (lead : string) id pre url :
  occurs lead id pre url -> contains (u lead) url = true.
Proof.
  intros (post & -> & _). apply contains_spec.
  now exists pre, (id ++ post).
Qed.

(** X3.  A text with no slash and no v= has no identifier: the result
    is [None]. *)
Theorem extract_video_id_needs_lead url :
  contains (u "/") url = false -> contains (u "v=") url = false ->
  extract_video_id url = None.
Proof.
  intros Hs Hv. apply extract_video_id_absent. intros f Hf.
  apply present_path in Hf as (id & pre & [H | H]);
    apply occurs_contains in H; congruence.
Qed.

Lemma extract_video_id_needs_lead_witness :
  extract_video_id (u "see youtube.com or youtu.be") = None.
Proof.
  refine (@extract_video_id_needs_lead _ _ _); vm_compute; reflexivity.
Defined.

(** ** format_duration *)

Lemma scan_unit_none {U : Unicode} (c : ascii) rest :
  c = "H"%char \/ c = "M"%char \/ c = "S"%char ->
  ~ component_ahead rest -> scan_unit c rest = (None, rest).
Proof.
  intros Hc Hn. unfold scan_unit. now rewrite unit_split_ahead.
Qed.

Lemma scan_token_tail {U : Unicode} h m s rest :
  digits_ok h = true -> digits_ok m = true -> digits_ok s = true ->
  (s = None -> ~ component_ahead rest) ->
  scan_duration (token h m s ++ rest) = Some (h, m, s).
Proof.
  intros Hh Hm Hs Hn. unfold scan_duration, token.
  rewrite <- !app_assoc. rewrite is_prefix_app.
  change (skipn 2 (u "PT" ++ ?x)) with x.
  pose proof H_not_decimal as NH. pose proof M_not_decimal as NM.
  pose proof S_not_decimal as NS.
  destruct h as [h|], m as [m|], s as [s|];
    try (specialize (Hn eq_refl));
    cbn [component]; rewrite <- ?app_assoc; cbn [app];
    repeat first
      [ rewrite scan_unit_here by assumption
      | rewrite scan_unit_other by (assumption || discriminate)
      | rewrite scan_unit_none by (assumption || auto) ];
    reflexivity.
Qed.

(** X4.  Only the head of the text is read: what follows a duration
    token does not change the result, provided that, when the token
    has no seconds, the rest does not itself begin with a digit run
    followed by H, M or S. *)
Theorem format_duration_ignores_rest (U : Unicode) h m s rest :
  digits_ok h = true -> digits_ok m = true -> digits_ok s = true ->
  (s = None -> ~ component_ahead rest) ->
  format_duration (token h m s ++ rest) = format_duration (token h m s).
Proof.
  intros Hh Hm Hs Hn.
  rewrite !format_duration_scan, scan_token_tail, scan_token by assumption.
  reflexivity.
Qed.

Lemma format_duration_ignores_rest_witness :
  format_duration (U := ascii_tables)
    (token (Some (u "1")) None (Some (u "30")) ++ u " (live)")
  = format_duration (U := ascii_tables)
      (token (Some (u "1")) None (Some (u "30"))).
Proof.
  refine (@format_duration_ignores_rest ascii_tables
            (Some (u "1")) None (Some (u "30")) (u " (live)") _ _ _ _);
    try (vm_compute; reflexivity).
  discriminate.
Defined.

(** X5.  The result of [format_duration] is never empty: it is the
    word Unknown or it starts with a digit. *)
Theorem format_duration_nonempty (U : Unicode) d :
  format_duration d <> []
  /\ (format_duration d = u "Unknown"
      \/ exists x t, format_duration d = x :: t /\ is_decimal x = true).
Proof.
  rewrite format_duration_scan.
  destruct (scan_duration d) as [[[h m] s]|] eqn:E.
  - apply scan_duration_ok in E as (Hh & Hm & Hs).
    destruct (render_head h m s Hh Hm Hs) as (x & t & -> & Hx).
    split; [discriminate | right; eauto].
  - split; [discriminate | now left].
Qed.

(** ** The classifier and the labelled fields *)

(** X6.  On the answers that the prompt asks for, in any letter case,
    the category is low_factual only for Low with Factual, it is
    high_questionable exactly for a High bias, and moderate_mixed in
    every other case (Low with Opinion or Mixed, and all of
    Moderate). *)
Theorem reaction_category_vocabulary (U : Unicode) b f :
  forallb is_ascii b = true -> forallb is_ascii f = true ->
  map ascii_lower b = u "low" \/ map ascii_lower b = u "moderate"
  \/ map ascii_lower b = u "high" ->
  map ascii_lower f = u "factual" \/ map ascii_lower f = u "opinion"
  \/ map ascii_lower f = u "mixed" ->
  reaction_category b f
  = if str_eqb (map ascii_lower b) (u "low")
       && str_eqb (map ascii_lower f) (u "factual")
    then low_factual
    else if str_eqb (map ascii_lower b) (u "high")
    then high_questionable else moderate_mixed.
Proof.
  intros Hb Hf Eb Ef. unfold reaction_category.
  rewrite !str_lower_ascii by assumption.
  destruct Eb as [-> | [-> | ->]]; destruct Ef as [-> | [-> | ->]];
    vm_compute; reflexivity.
Qed.

Lemma reaction_category_vocabulary_witness :
  reaction_category (U := ascii_tables) (u "LOW") (u "Opinion")
  = moderate_mixed.
Proof.
  refine (@reaction_category_vocabulary ascii_tables
            (u "LOW") (u "Opinion") _ _ _ _).
  - vm_compute. reflexivity.
  - vm_compute. reflexivity.
  - left. vm_compute. reflexivity.
  - right. left. vm_compute. reflexivity.
Defined.

Section FieldValues.

Context {U : Unicode}.



Lemma level_of_value label analysis :
  let v := level_of (re_search (label_re label) analysis) in
  v = u "Unknown" \/ (v <> [] /\ forallb is_word v = true).
Proof.
  cbv zeta. rewrite level_of_search.
  destruct (find_first (label_at label) analysis) as [v|] eqn:E;
    [right | now left].
  apply find_first_some in E as (pre & post & _ & E & _).
  unfold label_at in E. destruct (is_prefix _ _); [|discriminate].
  destruct (drop_while _ _) as [|w t]; [discriminate|].
  destruct (is_word w) eqn:Hw; [|discriminate]. injection E as <-.
  split; [discriminate|]. cbn [forallb]. rewrite Hw. apply take_while_all.
Qed.

End FieldValues.

(** X7.  The level read for a label is never empty: it is the
    sentinel Unknown or a non-empty run of word characters. *)
Theorem level_of_never_empty (U : Unicode) (label : string) analysis :
  let v := level_of (re_search (label_re label) analysis) in
  v <> [] /\ (v = u "Unknown" \/ forallb is_word v = true).
Proof.
  cbv zeta. destruct (level_of_value label analysis) as [E | [Hn F]].
  - rewrite E. split; [discriminate | now left].
  - split; [exact Hn | now right].
Qed.



(** ** strip *)

Section Strip.

Context {U : Unicode}.

Lemma drop_while_idem p s : drop_while p (drop_while p s) = drop_while p s.
Proof.
  induction s as [|x s IH]; [reflexivity|]. cbn [drop_while].
  destruct (p x) eqn:E; [exact IH|]. cbn [drop_while]. now rewrite E.
Qed.

Lemma drop_while_fixed p s :
  match s with [] => True | x :: _ => p x = false end ->
  drop_while p s = s.
Proof. destruct s as [|x s]; [reflexivity|]. cbn [drop_while]. now intros ->. Qed.

Lemma drop_while_starts p s :
  match drop_while p s with [] => True | x :: _ => p x = false end.
Proof.
  destruct (drop_while p s) as [|x t] eqn:E; [exact I|].
  now apply drop_while_head in E.
Qed.

Lemma forallb_rev (p : char -> bool) s :
  forallb p s = true -> forallb p (rev s) = true.
Proof.
  rewrite !forallb_forall. intros H x Hx. apply H. now apply in_rev.
Qed.

(** What is left after the trailing white space of [t] is removed
    starts like [t]. *)
Lemma rstrip_starts t :
  match t with [] => True | x :: _ => is_space x = false end ->
  match rev (drop_while is_space (rev t)) with
  | [] => True
  | x :: _ => is_space x = false
  end.
Proof.
  intros Ht. pose proof (take_drop_while is_space (rev t)) as E.
  apply (f_equal (@rev char)) in E. rewrite rev_app_distr, rev_involutive in E.
  destruct (rev (drop_while is_space (rev t))) as [|x c]; [exact I|].
  rewrite <- E in Ht. exact Ht.
Qed.

Lemma strip_fixed s : strip (strip s) = strip s.
Proof.
  unfold strip.
  set (t := drop_while is_space s).
  set (c := rev (drop_while is_space (rev t))).
  rewrite (drop_while_fixed is_space c)
    by (apply rstrip_starts, drop_while_starts).
  unfold c. now rewrite rev_involutive, drop_while_idem.
Qed.

Lemma strip_core ws1 core ws2 x y mid :
  forallb is_space ws1 = true -> forallb is_space ws2 = true ->
  core = x :: mid -> is_space x = false ->
  last core y = y -> is_space y = false ->
  strip (ws1 ++ core ++ ws2) = core.
Proof.
  intros F1 F2 Ec Hx El Hy. unfold strip.
  assert (Hne : core <> []) by (rewrite Ec; discriminate).
  destruct (exists_last Hne) as (r & z & Er).
  assert (z = y) by (rewrite Er, last_last in El; exact El). subst z.
  rewrite Ec. cbn [app]. rewrite drop_while_app by assumption.
  change (x :: mid ++ ws2) with ((x :: mid) ++ ws2). rewrite <- Ec, Er.
  rewrite rev_app_distr, rev_app_distr. cbn [rev app].
  rewrite drop_while_app by (assumption || now apply forallb_rev).
  cbn [rev]. now rewrite rev_involutive.
Qed.

Lemma strip_blank s : forallb is_space s = true -> strip s = [].
Proof.
  intros F. unfold strip. rewrite (@drop_while_all is_space s F). reflexivity.
Qed.

End Strip.

(** X9.  Trimming removes exactly the white space around a text that
    starts and ends with characters that are not white space; a text
    of white space only becomes empty; and trimming twice is trimming
    once, so the analysis put in the report has no white space at
    either end. *)
Theorem strip_trims (U : Unicode) :
  (forall ws1 ws2 x mid y,
      forallb is_space ws1 = true -> forallb is_space ws2 = true ->
      is_space x = false -> is_space y = false ->
      strip (ws1 ++ (x :: mid ++ [y]) ++ ws2) = x :: mid ++ [y])
  /\ (forall ws1 ws2 x,
         forallb is_space ws1 = true -> forallb is_space ws2 = true ->
         is_space x = false ->
         strip (ws1 ++ [x] ++ ws2) = [x])
  /\ (forall s, forallb is_space s = true -> strip s = [])
  /\ (forall s, strip (strip s) = strip s).
Proof.
  refine (conj _ (conj _ (conj (@strip_blank U) (@strip_fixed U)))).
  - intros ws1 ws2 x mid y F1 F2 Hx Hy.
    apply (@strip_core U ws1 _ ws2 x y (mid ++ [y]));
      try assumption; try reflexivity.
    change (x :: mid ++ [y]) with ((x :: mid) ++ [y]). apply last_last.
  - intros ws1 ws2 x F1 F2 Hx.
    apply (@strip_core U ws1 _ ws2 x x []); try assumption; reflexivity.
Qed.

Lemma strip_trims_witness :
  strip (U := ascii_tables) (u "  " ++ (ch "o" :: [] ++ [ch "k"]) ++ nl)
  = ch "o" :: [] ++ [ch "k"].
Proof.
  refine (proj1 (strip_trims ascii_tables) (u "  ") nl (ch "o") [] (ch "k")
                _ _ _ _); vm_compute; reflexivity.
Defined.

(** ** The catalog's answer *)

Lemma format_duration_default {U : Unicode} :
  format_duration (u "PT0S") = u "0s".
Proof.
  change (u "PT0S") with (token None None (Some (u "0"))).
  rewrite format_duration_token
    by first [ reflexivity
             | apply digits_ok_ascii; [discriminate | reflexivity] ].
  reflexivity.
Qed.

(** X10.  Of an item only the title is required.  A missing
    description becomes No description available, a missing channel
    title becomes Unknown, a missing duration is shown as 0s and a
    missing view count as 0; the items after the first are not
    read. *)
Theorem read_details_defaults (U : Unicode) t desc chan st cd rest :
  st = None \/ st = Some {| viewCount := None |} ->
  cd = None \/ cd = Some {| duration := None |} ->
  read_details
    {| items :=
         Some ({| snippet := Some {| title := Some t;
                                     description := desc;
                                     channelTitle := chan |};
                  statistics := st;
                  contentDetails := cd |} :: rest) |}
  = Ok (Some {| d_title := t;
                d_description :=
                  get_default desc (u "No description available");
                d_channel := get_default chan (u "Unknown");
                d_duration := u "0s";
                d_views := u "0" |}).
Proof.
  intros Hs Hc. unfold read_details.
  cbn [items snippet statistics contentDetails title description
       channelTitle getitem try_bind].
  assert (V : format_views (CInt 0) = Ok (u "0"))
    by (vm_compute; reflexivity).
  destruct Hs as [-> | ->]; destruct Hc as [-> | ->];
    cbn [get_default viewCount duration];
    rewrite format_duration_default, V; reflexivity.
Qed.

Lemma read_details_defaults_witness :
  read_details (U := ascii_tables)
    {| items :=
         Some [ {| snippet := Some {| title := Some (u "Only a title");
                                      description := None;
                                      channelTitle := None |};
                   statistics := None;
                   contentDetails := None |} ] |}
  = Ok (Some {| d_title := u "Only a title";
                d_description :=
                  get_default None (u "No description available");
                d_channel := get_default None (u "Unknown");
                d_duration := u "0s";
                d_views := u "0" |}).
Proof.
  exact (@read_details_defaults ascii_tables (u "Only a title")
           None None None None [] (or_introl eq_refl) (or_introl eq_refl)).
Defined.

(** X11.  Reading the first item fails on a missing snippet with the
    text 'snippet', else on a missing title with the text 'title',
    else on a view count that is not a number with the error of the
    conversion; in that order, whatever the other fields hold. *)
Theorem read_details_failures (U : Unicode) v rest :
  (snippet v = None ->
   read_details {| items := Some (v :: rest) |}
   = Raise (Exception (u "'snippet'")))
  /\ (forall sn,
         snippet v = Some sn -> title sn = None ->
         read_details {| items := Some (v :: rest) |}
         = Raise (Exception (u "'title'")))
  /\ (forall sn t st s e,
         snippet v = Some sn -> title sn = Some t ->
         statistics v = Some st -> viewCount st = Some (CStr s) ->
         int_of_str s = Raise e ->
         read_details {| items := Some (v :: rest) |} = Raise e).
Proof.
  unfold read_details. cbn [items].
  refine (conj _ (conj _ _)).
  - intros ->. vm_compute. reflexivity.
  - intros sn -> Ht. cbn [getitem try_bind]. rewrite Ht.
    vm_compute. reflexivity.
  - intros sn t st s e -> Ht -> Hv He. cbn [getitem try_bind get_default].
    rewrite Ht, Hv. cbn [getitem try_bind get_default].
    unfold format_views, to_int. rewrite He. reflexivity.
Qed.

Lemma read_details_failures_witness :
  read_details (U := ascii_tables)
    {| items :=
         Some [ {| snippet := Some {| title := None;
                                      description := Some (u "text");
                                      channelTitle := Some (u "Chan") |};
                   statistics := None;
                   contentDetails := None |} ] |}
  = Raise (Exception (u "'title'")).
Proof.
  refine (proj1 (proj2 (read_details_failures ascii_tables _ [])) _ _ _);
    reflexivity.
Defined.

(** ** The failure paths of a request *)

Section Failures.

Context {U : Unicode}.
Variable youtube : str -> str -> result response_t.
Variable model : str -> result str.

Lemma summarize_events_id r url video_id :
  extract_video_id url = Some video_id ->
  summarize_events youtube model r url
  = ReplyText (nth (r 0 mod length loading_messages) loading_messages []) ::
    VideosList facets video_id ::
    match try_bind (youtube facets video_id) read_details with
    | Raise e =>
      [EditText (u "❌ *Fetch Error:* Unable to retrieve video data: "
                 ++ exn_str e) false]
    | Ok None => [EditText video_not_found false]
    | Ok (Some d) =>
      EditText (u "🤖 Running analysis algorithms...") false ::
      analyse_events model (r 1) (r 2) video_id d
    end.
Proof.
  intros Hid. unfold summarize_events. rewrite Hid.
  destruct (extract_video_id_some _ Hid) as [Hl _].
  destruct video_id as [|c v]; [discriminate Hl | reflexivity].
Qed.

Lemma summarize_events_no_id r url :
  extract_video_id url = None ->
  summarize_events youtube model r url
  = [ ReplyText (nth (r 0 mod length loading_messages) loading_messages []);
      EditText invalid_evidence false ].
Proof. intros Hid. unfold summarize_events. now rewrite Hid. Qed.

End Failures.

(** X12.  A text that passes the test of [handle_message] but holds no
    identifier is answered with the placeholder and then the Invalid
    Evidence message, whatever the kind of the update; neither service
    is called. *)
Theorem invalid_link_stops (U : Unicode) youtube model m url w :
  contains (u "youtube.com") url || contains (u "youtu.be") url = true ->
  extract_video_id url = None ->
  exists loading,
    In loading loading_messages
    /\ log (snd (handle_message youtube model
                   {| message := m;
                      effective_message := {| text := Some url |} |} w))
       = log w ++ [ReplyText loading; EditText invalid_evidence false].
Proof.
  intros Hl Hid. rewrite (handle_message_link youtube model m url w Hl).
  cbn [snd].
  rewrite summarize_youtube_log, summarize_events_no_id by assumption.
  eexists. split; [apply loading_In | reflexivity].
Qed.

Lemma invalid_link_stops_witness :
  exists loading,
    In loading loading_messages
    /\ log (snd (handle_message (U := ascii_tables)
                   sample_youtube sample_model
                   {| message := Some {| text := Some (u "is youtube.com down?") |};
                      effective_message :=
                        {| text := Some (u "is youtube.com down?") |} |}
                   sample_world))
       = log sample_world
         ++ [ReplyText loading; EditText invalid_evidence false].
Proof.
  refine (@invalid_link_stops ascii_tables sample_youtube sample_model
            (Some {| text := Some (u "is youtube.com down?") |})
            (u "is youtube.com down?") sample_world _ _);
    vm_compute; reflexivity.
Defined.

(** X13.  When the catalog call raises, or the answer cannot be read,
    the placeholder is replaced by the Fetch Error message that ends
    with the text of the exception, and the request stops there: the
    generative service is not called. *)
Theorem fetch_error_stops (U : Unicode) youtube model url video_id e w :
  extract_video_id url = Some video_id ->
  try_bind (youtube facets video_id) read_details = Raise e ->
  exists loading,
    In loading loading_messages
    /\ log (snd (summarize_youtube youtube model url w))
       = log w ++
         [ ReplyText loading;
           VideosList facets video_id;
           EditText (u "❌ *Fetch Error:* Unable to retrieve video data: "
                     ++ exn_str e) false ].
Proof.
  intros Hid He.
  rewrite summarize_youtube_log, (summarize_events_id _ _ _ _ Hid), He.
  eexists. split; [apply loading_In | reflexivity].
Qed.

Lemma fetch_error_stops_witness :
  exists loading,
    In loading loading_messages
    /\ log (snd (summarize_youtube (U := ascii_tables)
                   (fun _ _ => Raise (Exception (u "quota exceeded")))
                   sample_model sample_url sample_world))
       = log sample_world ++
         [ ReplyText loading;
           VideosList facets (u "dQw4w9WgXcQ");
           EditText (u "❌ *Fetch Error:* Unable to retrieve video data: "
                     ++ exn_str (Exception (u "quota exceeded"))) false ].
Proof.
  refine (@fetch_error_stops ascii_tables
            (fun _ _ => Raise (Exception (u "quota exceeded")))
            sample_model sample_url (u "dQw4w9WgXcQ")
            (Exception (u "quota exceeded")) sample_world _ _).
  - vm_compute. reflexivity.
  - reflexivity.
Defined.

(** X14.  When the generative service raises, the request has sent the
    placeholder, called the catalog, announced the analysis and made
    one generative call; it ends with the Analysis Error message that
    carries the text of the exception, and no report is sent. *)
Theorem analysis_error_stops (U : Unicode) youtube model url video_id d e w :
  extract_video_id url = Some video_id ->
  try_bind (youtube facets video_id) read_details = Ok (Some d) ->
  model (prompt_of (d_title d) (d_channel d) (d_description d)) = Raise e ->
  exists loading,
    In loading loading_messages
    /\ log (snd (summarize_youtube youtube model url w))
       = log w ++
         [ ReplyText loading;
           VideosList facets video_id;
           EditText (u "🤖 Running analysis algorithms...") false;
           GenerateContent
             (prompt_of (d_title d) (d_channel d) (d_description d));
           EditText (u "❌ *Analysis Error:* " ++ exn_str e) false ].
Proof.
  intros Hid Hd He.
  rewrite summarize_youtube_log, (summarize_events_id _ _ _ _ Hid), Hd.
  unfold analyse_events. cbv zeta. rewrite He.
  eexists. split; [apply loading_In | reflexivity].
Qed.

Lemma analysis_error_stops_witness :
  exists loading,
    In loading loading_messages
    /\ log (snd (summarize_youtube (U := ascii_tables)
                   sample_youtube
                   (fun _ => Raise (Exception (u "model overloaded")))
                   sample_url sample_world))
       = log sample_world ++
         [ ReplyText loading;
           VideosList facets (u "dQw4w9WgXcQ");
           EditText (u "🤖 Running analysis algorithms...") false;
           GenerateContent
             (prompt_of (d_title sample_details) (d_channel sample_details)
                        (d_description sample_details));
           EditText (u "❌ *Analysis Error:* "
                     ++ exn_str (Exception (u "model overloaded"))) false ].
Proof.
  refine (@analysis_error_stops ascii_tables sample_youtube
            (fun _ => Raise (Exception (u "model overloaded")))
            sample_url (u "dQw4w9WgXcQ") sample_details
            (Exception (u "model overloaded")) sample_world _ _ _).
  - vm_compute. reflexivity.
  - vm_compute. reflexivity.
  - reflexivity.
Defined.

(** ** Every request *)

Lemma no_generative_call (l pre post : list event) prompt :
  filter is_generative_call l = [] ->
  l <> pre ++ GenerateContent prompt :: post.
Proof.
  intros H E. rewrite E, filter_app in H. cbn [filter is_generative_call] in H.
  apply app_eq_nil in H. destruct H as [_ H]. discriminate H.
Qed.

Lemma generative_call_third (a b : event) p (tail pre post : list event) prompt :
  is_generative_call a = false ->
  is_generative_call b = false ->
  filter is_generative_call tail = [] ->
  a :: b :: GenerateContent p :: tail = pre ++ GenerateContent prompt :: post ->
  pre = [a; b].
Proof.
  intros Ha Hb Ht E. destruct pre as [|x [|y [|z pre]]]; cbn [app] in E.
  - injection E as E _. rewrite E in Ha. discriminate Ha.
  - injection E as _ E _. rewrite E in Hb. discriminate Hb.
  - injection E as <- <- _ _. reflexivity.
  - injection E as _ _ _ E. exfalso. exact (@no_generative_call tail pre post prompt Ht E).
Qed.

(** X15.  Whatever the text and whatever the services answer, a
    request sends exactly one new message, a loading line, and sends
    it first; it calls the catalog at most once and the generative
    service at most once; and the generative service is called only
    after the catalog: wherever a call to it stands among the events
    of the request, what precedes it after the loading line is the
    catalog call for the identifier found in the text, followed by the
    Running analysis edit. *)
Theorem request_shape (U : Unicode) youtube model url w :
  exists loading rest,
    log (snd (summarize_youtube youtube model url w))
    = log w ++ ReplyText loading :: rest
    /\ In loading loading_messages
    /\ length (filter is_reply rest) = 0
    /\ length (filter is_catalog_call rest) <= 1
    /\ length (filter is_generative_call rest) <= 1
    /\ forall pre prompt post,
         rest = pre ++ GenerateContent prompt :: post ->
         exists video_id,
           extract_video_id url = Some video_id
           /\ pre = [ VideosList facets video_id;
                      EditText (u "🤖 Running analysis algorithms...") false ].
Proof.
  rewrite summarize_youtube_log. unfold summarize_events, analyse_events.
  cbv zeta. eexists _, _. split; [reflexivity|].
  split; [apply loading_In|].
  destruct (extract_video_id url) as [[|c video_id]|] eqn:Hid;
    try (refine (conj _ (conj _ (conj _ _)));
         [ reflexivity
         | cbn [filter is_catalog_call length]; lia
         | cbn [filter is_generative_call length]; lia
         | intros pre prompt post E; exfalso;
           refine (@no_generative_call _ pre post prompt _ E); reflexivity ]).
  destruct (try_bind (youtube facets (c :: video_id)) read_details)
    as [[d|]|e];
    try (refine (conj _ (conj _ (conj _ _)));
         [ reflexivity
         | cbn [filter is_catalog_call length]; lia
         | cbn [filter is_generative_call length]; lia
         | intros pre prompt post E; exfalso;
           refine (@no_generative_call _ pre post prompt _ E); reflexivity ]).
  destruct (model (prompt_of (d_title d) (d_channel d) (d_description d)));
    (refine (conj _ (conj _ (conj _ _)));
     [ reflexivity
     | cbn [filter is_catalog_call length]; lia
     | cbn [filter is_generative_call length]; lia
     | intros pre prompt post E; exists (c :: video_id);
       split; [reflexivity|];
       refine (@generative_call_third _ _ _ _ pre post prompt _ _ _ E);
       reflexivity ]).
Qed.

(** X16.  Only the report is sent with the Markdown parse mode: a
    message edited in with that mode exists only when an identifier
    was found, the details were read and the generative service
    answered, and it is then the report; every status and error
    message is sent as plain text. *)
Theorem markdown_only_for_report (U : Unicode) youtube model url w text :
  In (EditText text true)
     (summarize_events youtube model (fun i => draws w (i + next w)) url) ->
  exists video_id d answer number detective_reaction,
    extract_video_id url = Some video_id
    /\ try_bind (youtube facets video_id) read_details = Ok (Some d)
    /\ model (prompt_of (d_title d) (d_channel d) (d_description d))
       = Ok answer
    /\ text = report number video_id d (strip answer) detective_reaction.
Proof.
  unfold summarize_events, analyse_events. cbv zeta.
  destruct (extract_video_id url) as [[|c video_id]|] eqn:Hid;
    try (cbn [In]; intros [H | [H | []]]; discriminate H).
  destruct (try_bind (youtube facets (c :: video_id)) read_details)
    as [[d|]|e] eqn:Hd;
    try (cbn [In]; intros [H | [H | [H | []]]]; discriminate H).
  destruct (model (prompt_of (d_title d) (d_channel d) (d_description d)))
    as [answer|e] eqn:Hm;
    cbn [In]; intros [H | [H | [H | [H | [H | []]]]]]; try discriminate H.
  injection H as H. eexists _, _, _, _, _.
  split; [reflexivity|]. split; [exact Hd|]. split; [exact Hm|].
  symmetry. exact H.
Qed.

Lemma markdown_only_for_report_witness :
  exists video_id d answer number detective_reaction,
    extract_video_id sample_url = Some video_id
    /\ try_bind (sample_youtube facets video_id) (read_details (U := ascii_tables))
       = Ok (Some d)
    /\ sample_model (prompt_of (d_title d) (d_channel d) (d_description d))
       = Ok answer
    /\ sample_report
       = report number video_id d (strip (U := ascii_tables) answer)
                detective_reaction.
Proof.
  refine (@markdown_only_for_report ascii_tables sample_youtube sample_model
            sample_url sample_world sample_report _).
  vm_compute. do 4 right. left. reflexivity.
Defined.

(** ** format_views at its edges *)

Local Open Scope Z_scope.

Lemma format_views_top_of_K {U : Unicode} (n : nat) :
  (n < 50)%nat ->
  format_views (CInt (999950 + Z.of_nat n)) = Ok (u "1000.0K").
Proof.
  intros H.
  do 50 (destruct n as [|n]; [vm_compute; reflexivity|]).
  lia.
Qed.

(** X17.  The suffix is chosen before the rounding: a count from
    999950 to 999999 is still below the threshold of M and is printed
    as 1000.0K, while 999949 is printed as 999.9K. *)
Theorem format_views_rounds_up_to_1000K (U : Unicode) count :
  999950 <= count < 1000000 ->
  format_views (CInt count) = Ok (u "1000.0K")
  /\ format_views (CInt 999949) = Ok (u "999.9K").
Proof.
  intros H. split; [|vm_compute; reflexivity].
  replace count with (999950 + Z.of_nat (Z.to_nat (count - 999950))) by lia.
  apply format_views_top_of_K. lia.
Qed.

Lemma format_views_rounds_up_to_1000K_witness :
  format_views (U := ascii_tables) (CInt 999999) = Ok (u "1000.0K")
  /\ format_views (U := ascii_tables) (CInt 999949) = Ok (u "999.9K").
Proof.
  refine (@format_views_rounds_up_to_1000K ascii_tables 999999 _). lia.
Defined.

Lemma true_divide_in_range a b :
  0 < b -> b <= a -> a < 2 ^ 1023 * b ->
  exists q, true_divide a b = Ok q.
Proof.
  intros Hb Hab Ha.
  pose proof (@log2_quotient a b 1023 Hb Hab Ha ltac:(lia)) as He.
  unfold true_divide.
  destruct (Z.leb_spec 1024 (Z.log2 (a / b))); [lia|].
  destruct (Z.eqb_spec (Z.log2 (a / b)) 1023); [lia|].
  cbn [orb andb]. eauto.
Qed.

Lemma true_divide_overflows a b :
  0 < b -> 2 ^ 1024 * b <= a ->
  true_divide a b
  = Raise (Exception (u "integer division result too large for a float")).
Proof.
  intros Hb Ha. unfold true_divide.
  assert (Hq : 2 ^ 1024 <= a / b) by (apply Z.div_le_lower_bound; lia).
  assert (He : 1024 <= Z.log2 (a / b)).
  { apply Z.log2_le_pow2; [|exact Hq].
    pose proof (Z.pow_pos_nonneg 2 1024 ltac:(lia) ltac:(lia)). lia. }
  destruct (Z.leb_spec 1024 (Z.log2 (a / b))); [reflexivity | lia].
Qed.

(** X18.  [format_views] returns a string for every integer count
    below 2^1023 * 10^6, negative counts included; from 2^1024 * 10^6
    on it raises the overflow error of the division. *)
Theorem format_views_range (U : Unicode) count :
  (count < 2 ^ 1023 * 1000000 ->
   exists s, format_views (CInt count) = Ok s)
  /\ (2 ^ 1024 * 1000000 <= count ->
      format_views (CInt count)
      = Raise (Exception
                 (u "integer division result too large for a float"))).
Proof.
  rewrite format_views_int. split; intros H.
  - destruct (Z.leb_spec 1000000 count).
    + destruct (@true_divide_in_range count 1000000) as [q ->];
        try lia. cbn [try_bind]. eauto.
    + destruct (Z.leb_spec 1000 count); [|eauto].
      destruct (@true_divide_in_range count 1000) as [q ->]; try lia.
      cbn [try_bind]. eauto.
  - assert (0 < 2 ^ 1024) by (apply Z.pow_pos_nonneg; lia).
    destruct (Z.leb_spec 1000000 count); [|lia].
    rewrite true_divide_overflows by lia. reflexivity.
Qed.

Lemma format_views_range_witness :
  exists s, format_views (U := ascii_tables) (CInt (-42)) = Ok s.
Proof.
  refine (proj1 (@format_views_range ascii_tables (-42)) _).
  vm_compute. reflexivity.
Defined.

Local Close Scope Z_scope.
